(** * Scientific-Calculator: a shallow embedding of parser.ts and calculator.ts

    The development follows the two TypeScript classes of the repository:
    [Parser] (tokenize, toRPN, evaluateRPN, evaluate) and [Calculator]
    (append, backspace, clear, evaluate, format).

    - JavaScript strings are [string]s of 8-bit code units.
    - JavaScript numbers are the kernel's binary64 floats ([PrimFloat.float]).
    - [throw new Error(m)] is the [Throw m] branch of [result].
    - The functions of the host's [Math] object whose results the language
      standard leaves to the implementation are the fields of [Host]. *)

From Stdlib Require Import Bool Arith ZArith Lia List String Ascii DecimalString.
From Stdlib Require Import Floats.PrimFloat Floats.SpecFloat Floats.FloatOps.
From Stdlib Require Import Permutation.
Import ListNotations.

Local Open Scope list_scope.
Local Open Scope string_scope.

(** ** Results of code that may throw *)

Inductive result (A : Type) : Type :=
| Ok (a : A)
| Throw (message : string).

Arguments Ok {A} a.
Arguments Throw {A} message.

Definition bind {A B : Type} (r : result A) (k : A -> result B) : result B :=
  match r with
  | Ok a => k a
  | Throw m => Throw m
  end.

Notation "'let*' x ':=' r 'in' k" := (bind r (fun x => k))
  (at level 10, x pattern, r at level 100, k at level 200).

(** ** The host: strings, numbers and built-in objects of the JavaScript engine *)

Module JS.

(** *** Character classes of the regular expressions in the source *)

Definition code (c : ascii) : nat := nat_of_ascii c.

Definition between (lo hi : nat) (c : ascii) : bool :=
  (lo <=? code c)%nat && (code c <=? hi)%nat.

(** [[0-9]] *)
Definition is_digit (c : ascii) : bool := between 48 57 c.

(** [[a-zA-Z]] *)
Definition is_letter (c : ascii) : bool := between 97 122 c || between 65 90 c.

(** [\s], on 8-bit code units: TAB, LF, VT, FF, CR, SPACE and NBSP. *)
Definition is_space (c : ascii) : bool :=
  between 9 13 c || (code c =? 32)%nat || (code c =? 160)%nat.

(** *** String helpers *)

Definition str (c : ascii) : string := String c EmptyString.

Fixpoint filter (p : ascii -> bool) (s : string) : string :=
  match s with
  | EmptyString => EmptyString
  | String c s' => if p c then String c (filter p s') else filter p s'
  end.

Fixpoint forallb (p : ascii -> bool) (s : string) : bool :=
  match s with
  | EmptyString => true
  | String c s' => p c && forallb p s'
  end.

Fixpoint count (p : ascii -> bool) (s : string) : nat :=
  match s with
  | EmptyString => 0
  | String c s' => (if p c then 1 else 0) + count p s'
  end.

(** [s.split(sep)] for a one-character separator. *)
Fixpoint split (sep : ascii) (s : string) : list string :=
  match s with
  | EmptyString => [EmptyString]
  | String c s' =>
      if Ascii.eqb c sep then EmptyString :: split sep s'
      else match split sep s' with
           | piece :: pieces => String c piece :: pieces
           | [] => [str c]
           end
  end.

(** [s.slice(0, -1)]: all but the last code unit; the empty string stays empty. *)
Fixpoint slice_0_minus1 (s : string) : string :=
  match s with
  | EmptyString => EmptyString
  | String c EmptyString => EmptyString
  | String c s' => String c (slice_0_minus1 s')
  end.

(** [s || d]: the empty string is falsy. *)
Definition or_default (s d : string) : string :=
  match s with
  | EmptyString => d
  | _ => s
  end.

Fixpoint repeat_char (c : ascii) (n : nat) : string :=
  match n with
  | O => EmptyString
  | S n' => String c (repeat_char c n')
  end.

(** The longest prefix of [s] made of characters in [p], and what follows it. *)
Fixpoint span (p : ascii -> bool) (s : string) : string * string :=
  match s with
  | EmptyString => (EmptyString, EmptyString)
  | String c s' =>
      if p c then let (run, rest) := span p s' in (String c run, rest)
      else (EmptyString, s)
  end.

Definition is_empty (s : string) : bool :=
  match s with
  | EmptyString => true
  | _ => false
  end.

(** *** Numbers *)

Definition pow10 (k : Z) : Z := 10 ^ k.

(** The fraction [a/b] times [10^k], again as a fraction. *)
Definition scale10 (a b k : Z) : Z * Z :=
  if (0 <=? k)%Z then (a * pow10 k, b)%Z else (a, b * pow10 (- k))%Z.

(** The float nearest to [a/b] (ties to even), for [a], [b] positive. *)
Definition round_fraction (a b : Z) : float :=
  SF2Prim (SFdiv prec emax (S754_finite false (Z.to_pos a) 0)
                           (S754_finite false (Z.to_pos b) 0)).

(** The float nearest to [m * 10^k], for [m] not negative. *)
Definition of_decimal (m k : Z) : float :=
  if (m =? 0)%Z then zero
  else let (a, b) := scale10 m 1 k in round_fraction a b.

Definition digit_value (c : ascii) : Z :=
  if is_digit c then Z.of_nat (code c) - 48
  else if between 97 102 c then Z.of_nat (code c) - 87
  else if between 65 70 c then Z.of_nat (code c) - 55
  else 0.

Definition is_hex_digit (c : ascii) : bool :=
  is_digit c || between 97 102 c || between 65 70 c.

(** The integer written by the digits of [s] in the given radix. *)
Fixpoint digits_value (radix acc : Z) (s : string) : Z :=
  match s with
  | EmptyString => acc
  | String c s' => digits_value radix (acc * radix + digit_value c) s'
  end.

Fixpoint trim_start (s : string) : string :=
  match s with
  | String c s' => if is_space c then trim_start s' else s
  | EmptyString => EmptyString
  end.

Fixpoint trim_end (s : string) : string :=
  match s with
  | EmptyString => EmptyString
  | String c s' =>
      match trim_end s' with
      | EmptyString => if is_space c then EmptyString else str c
      | t => String c t
      end
  end.

(** NonDecimalIntegerLiteral: [0x], [0o] or [0b] and at least one digit. *)
Definition non_decimal_literal (s : string) : option Z :=
  match s with
  | String "0" (String r ds) =>
      let lit (radix : Z) (ok : ascii -> bool) :=
        if negb (is_empty ds) && forallb ok ds
        then Some (digits_value radix 0 ds) else None in
      if Ascii.eqb r "x" || Ascii.eqb r "X" then lit 16%Z is_hex_digit
      else if Ascii.eqb r "o" || Ascii.eqb r "O" then lit 8%Z (between 48 55)
      else if Ascii.eqb r "b" || Ascii.eqb r "B" then lit 2%Z (between 48 49)
      else None
  | _ => None
  end.

(** ExponentPart after its indicator: an optional sign and at least one digit. *)
Definition signed_integer (s : string) : option Z :=
  let (neg, ds) :=
    match s with
    | String "+" r => (false, r)
    | String "-" r => (true, r)
    | _ => (false, s)
    end in
  if negb (is_empty ds) && forallb is_digit ds
  then Some (if neg then - digits_value 10 0 ds else digits_value 10 0 ds)%Z
  else None.

(** StrUnsignedDecimalLiteral other than [Infinity]: the mantissa [m] and the
    decimal exponent [k] of the value [m * 10^k]. *)
Definition unsigned_decimal_literal (s : string) : option (Z * Z) :=
  let (ip, r1) := span is_digit s in
  let (fp, r2) :=
    match r1 with
    | String "." r => span is_digit r
    | _ => (EmptyString, r1)
    end in
  if is_empty ip && is_empty fp then None
  else
    let m := digits_value 10 0 (ip ++ fp) in
    let k := (- Z.of_nat (String.length fp))%Z in
    match r2 with
    | EmptyString => Some (m, k)
    | String c r3 =>
        if Ascii.eqb c "e" || Ascii.eqb c "E" then
          match signed_integer r3 with
          | Some x => Some (m, x + k)%Z
          | None => None
          end
        else None
    end.

(** [Number(s)] on a string: StringToNumber.  The value of a decimal literal
    is rounded to the nearest float. *)
Definition Number (s : string) : float :=
  let t := trim_end (trim_start s) in
  if is_empty t then zero
  else
    match non_decimal_literal t with
    | Some n => of_decimal n 0
    | None =>
        let (neg, u) :=
          match t with
          | String "+" r => (false, r)
          | String "-" r => (true, r)
          | _ => (false, t)
          end in
        let sign (x : float) := if neg then opp x else x in
        if String.eqb u "Infinity" then sign infinity
        else match unsigned_decimal_literal u with
             | Some (m, k) => sign (of_decimal m k)
             | None => nan
             end
    end.

(** [Number.parseFloat(String(x))]: [String] writes the shortest decimal that
    reads back as [x], [NaN] and the infinities by name, and both zeros
    as ["0"]. *)
Definition parseFloat_String (x : float) : float :=
  if is_zero x then zero else x.

(** The decimal digits of a natural number. *)
Definition decimal (n : Z) : string :=
  NilZero.string_of_uint (N.to_uint (Z.to_N n)).

(** [x.toPrecision(p)], for [1 <= p <= 100]. *)
Definition toPrecision (x : float) (p : Z) : string :=
  match Prim2SF x with
  | S754_nan => "NaN"
  | S754_infinity false => "Infinity"
  | S754_infinity true => "-Infinity"
  | S754_zero _ => "0" ++ (if (p =? 1)%Z then "" else "." ++ repeat_char "0" (Z.to_nat (p - 1)))
  | S754_finite neg mx ex =>
      let s := if neg then "-" else "" in
      (* x = a / b *)
      let (a, b) := if (0 <=? ex)%Z then (Zpos mx * 2 ^ ex, 1)%Z
                    else (Zpos mx, 2 ^ (- ex))%Z in
      (* e = floor (log10 x), one of d - 1 and d *)
      let d := (Z.of_nat (String.length (decimal a))
                - Z.of_nat (String.length (decimal b)))%Z in
      let e0 := let (a', b') := scale10 a b (- d) in
                if (b' <=? a')%Z then d else (d - 1)%Z in
      (* n nearest to x / 10^(e - p + 1), the larger of two *)
      let n0 := let (a', b') := scale10 a b (p - 1 - e0) in
                ((2 * a' + b') / (2 * b'))%Z in
      let (n, e) := if (n0 =? pow10 p)%Z then (pow10 (p - 1), e0 + 1)%Z
                    else (n0, e0) in
      let m := decimal n in
      if (e <? -6)%Z || (p <=? e)%Z then
        let m' := if (p =? 1)%Z then m
                  else substring 0 1 m ++ "." ++ substring 1 (Z.to_nat (p - 1)) m in
        s ++ m' ++ "e" ++ (if (0 <? e)%Z then "+" else "-") ++ decimal (Z.abs e)
      else if (e =? p - 1)%Z then s ++ m
      else if (0 <=? e)%Z then
        s ++ substring 0 (Z.to_nat (e + 1)) m ++ "."
          ++ substring (Z.to_nat (e + 1)) (Z.to_nat (p - (e + 1))) m
      else
        s ++ "0." ++ repeat_char "0" (Z.to_nat (- (e + 1))) ++ m
  end.

(** *** Values

    The tables of the source are object literals and the value stack is an
    array, so a lookup or a [pop()] can yield something that is not a number. *)

Inductive value : Type :=
| VNum (x : float)        (* a number *)
| VUndefined              (* [undefined] *)
| VMember (key : string)  (* the member [key] that every object literal inherits *)
| VText.                  (* a string that [+] built from such a member *)

(** [ToNumber]: members and the strings built from them do not read as numbers. *)
Definition ToNumber (v : value) : float :=
  match v with
  | VNum x => x
  | _ => nan
  end.

(** [v === undefined] *)
Definition is_undefined (v : value) : bool :=
  match v with
  | VUndefined => true
  | _ => false
  end.

(** [v === 0] *)
Definition strict_eq_0 (v : value) : bool :=
  match v with
  | VNum x => (x =? 0)%float
  | _ => false
  end.

(** [a + b]: concatenation as soon as one operand is not a number. *)
Definition plus (a b : value) : value :=
  match a, b with
  | VNum x, VNum y => VNum (x + y)%float
  | (VMember _ | VText), _ | _, (VMember _ | VText) => VText
  | _, _ => VNum nan
  end.

(** [Number.isFinite(v)] *)
Definition Number_isFinite (v : value) : bool :=
  match v with
  | VNum x => is_finite x
  | _ => false
  end.

(** *** Object literals

    An object literal has its own properties and inherits the members of
    [Object.prototype]; [k in o] and [o[k]] see both. *)

Definition Object_prototype : list string :=
  [ "constructor"; "hasOwnProperty"; "isPrototypeOf"; "propertyIsEnumerable";
    "toLocaleString"; "toString"; "valueOf"; "__proto__";
    "__defineGetter__"; "__defineSetter__"; "__lookupGetter__"; "__lookupSetter__" ].

Definition has (xs : list string) (k : string) : bool :=
  existsb (String.eqb k) xs.

Fixpoint own (o : list (string * float)) (k : string) : option float :=
  match o with
  | [] => None
  | (k', x) :: o' => if String.eqb k k' then Some x else own o' k
  end.

(** [o[k]] *)
Definition get (o : list (string * float)) (k : string) : value :=
  match own o k with
  | Some x => VNum x
  | None => if has Object_prototype k then VMember k else VUndefined
  end.

(** [k in o] *)
Definition in_ (k : string) (o : list (string * float)) : bool :=
  match own o k with
  | Some _ => true
  | None => has Object_prototype k
  end.

(** *** What the language standard leaves to the engine *)

Class Host : Type := {
  Math_sin : float -> float;
  Math_cos : float -> float;
  Math_tan : float -> float;
  Math_log10 : float -> float;
  Math_log : float -> float;
  Math_sqrt : float -> float;
  Math_pow : float -> float -> float;
  (** [a < b] on the texts of two inherited members *)
  member_lt : string -> string -> bool
}.

(** [a < b] and [a <= b] on the results of two lookups *)
Definition lt `{Host} (a b : value) : bool :=
  match a, b with
  | VNum x, VNum y => (x <? y)%float
  | VMember j, VMember k => member_lt j k
  | _, _ => false
  end.

Definition le `{Host} (a b : value) : bool :=
  match a, b with
  | VNum x, VNum y => (x <=? y)%float
  | VMember j, VMember k => negb (member_lt k j)
  | _, _ => false
  end.

Definition Math_PI : float := 0x1.921fb54442d18p+1%float.
Definition Math_E : float := 0x1.5bf0a8b145769p+1%float.

End JS.

(** ** parser.ts *)

Module Parser.

(** [type Token = { type: 'number' | 'op' | 'fn' | 'paren' | 'const'; value: string }] *)
Inductive TokenType : Type := number | op | fn | paren | const.

Record Token : Type := { type : TokenType; value : string }.

Definition type_eqb (a b : TokenType) : bool :=
  match a, b with
  | number, number | op, op | fn, fn | paren, paren | const, const => true
  | _, _ => false
  end.

Definition FUNCTIONS : list string := ["sin"; "cos"; "tan"; "log"; "ln"; "sqrt"].

Definition CONSTANTS : list (string * float) := [("pi", JS.Math_PI); ("e", JS.Math_E)].

Definition PRECEDENCE : list (string * float) :=
  [("+", 1%float); ("-", 1%float); ("*", 2%float); ("/", 2%float); ("^", 3%float)].

Definition RIGHT_ASSOC : list string := ["^"].

(** *** tokenize *)

(** [[0-9.]] *)
Definition is_number_char (c : ascii) : bool := JS.is_digit c || Ascii.eqb c ".".

(** [[a-zA-Z0-9]] *)
Definition is_identifier_char (c : ascii) : bool := JS.is_letter c || JS.is_digit c.

(** [ch === '(' || ch === ')'] *)
Definition is_paren_char (c : ascii) : bool := Ascii.eqb c "(" || Ascii.eqb c ")".

(** [[+\-*/^]] *)
Definition is_operator_char (c : ascii) : bool :=
  Ascii.eqb c "+" || Ascii.eqb c "-" || Ascii.eqb c "*" || Ascii.eqb c "/" || Ascii.eqb c "^".

(** The end of the number branch: [num] is complete. *)
Definition number_token (num : string) : result Token :=
  if (2 <? List.length (JS.split "." num))%nat then Throw "Invalid number format"
  else Ok {| type := number; value := num |}.

(** The end of the letter branch: [id] is complete. *)
Definition identifier_token (id : string) : result Token :=
  if JS.has FUNCTIONS id then Ok {| type := fn; value := id |}
  else if JS.in_ id CONSTANTS then Ok {| type := const; value := id |}
  else Throw ("Unknown identifier: " ++ id).

(** The [while (i < cleaned.length)] loop, on the part of [cleaned] from [i] on.
    The two inner loops extend [num] and [id] while the next character
    belongs to the run. *)
Fixpoint tokenize_loop (cleaned : string) (tokens : list Token) : result (list Token) :=
  match cleaned with
  | EmptyString => Ok tokens
  | String ch rest =>
      if is_number_char ch then
        (fix number_run (r : string) (num : string) {struct r} : result (list Token) :=
           let done :=
             match number_token num with
             | Ok t => tokenize_loop r (tokens ++ [t])%list
             | Throw m => Throw m
             end in
           match r with
           | String c r' => if is_number_char c then number_run r' (num ++ JS.str c) else done
           | EmptyString => done
           end) rest (JS.str ch)
      else if JS.is_letter ch then
        (fix identifier_run (r : string) (id : string) {struct r} : result (list Token) :=
           let done :=
             match identifier_token id with
             | Ok t => tokenize_loop r (tokens ++ [t])%list
             | Throw m => Throw m
             end in
           match r with
           | String c r' => if is_identifier_char c then identifier_run r' (id ++ JS.str c) else done
           | EmptyString => done
           end) rest (JS.str ch)
      else if is_paren_char ch then
        tokenize_loop rest (tokens ++ [{| type := paren; value := JS.str ch |}])%list
      else if is_operator_char ch then
        tokenize_loop rest (tokens ++ [{| type := op; value := JS.str ch |}])%list
      else Throw ("Invalid character: " ++ JS.str ch)
  end.

Definition tokenize (expr : string) : result (list Token) :=
  let cleaned := JS.filter (fun c => negb (JS.is_space c)) expr in
  tokenize_loop cleaned [].

Section WithHost.

Context `{host : JS.Host}.

(** *** toRPN

    [output] grows at its end, as [output.push] does; the head of [ops] is
    its top, [ops[ops.length - 1]]. *)

(** The test of line 75 that sends the operator [top] to the output before
    the operator [t] is pushed. *)
Definition yields (top t : Token) : bool :=
  let p1 := JS.get PRECEDENCE (value top) in
  let p2 := JS.get PRECEDENCE (value t) in
  (JS.has RIGHT_ASSOC (value t) && JS.lt p2 p1)
  || (negb (JS.has RIGHT_ASSOC (value t)) && JS.le p2 p1).

(** The [while (ops.length > 0)] loop of the ['op'] branch. *)
Fixpoint pop_operators (t : Token) (ops output : list Token) : list Token * list Token :=
  match ops with
  | [] => (ops, output)
  | top :: ops' =>
      match type top with
      | fn => pop_operators t ops' (output ++ [top])%list
      | op => if yields top t then pop_operators t ops' (output ++ [top])%list
              else (ops, output)
      | _ => (ops, output)
      end
  end.

(** The [while (ops.length > 0)] loop of the [')'] branch: [found], and the
    two stacks when the loop ends. *)
Fixpoint pop_to_paren (ops output : list Token) : bool * list Token * list Token :=
  match ops with
  | [] => (false, ops, output)
  | top :: ops' =>
      if type_eqb (type top) paren && String.eqb (value top) "("
      then (true, ops', output)
      else pop_to_paren ops' (output ++ [top])%list
  end.

(** One turn of the [for] loop. *)
Definition shunt (t : Token) (output ops : list Token)
  : result (list Token * list Token) :=
  match type t with
  | number | const => Ok ((output ++ [t])%list, ops)
  | fn => Ok (output, t :: ops)
  | op => let (ops', output') := pop_operators t ops output in
          Ok (output', t :: ops')
  | paren =>
      if String.eqb (value t) "(" then Ok (output, t :: ops)
      else
        let '(found, ops', output') := pop_to_paren ops output in
        if negb found then Throw "Mismatched parentheses"
        else match ops' with
             | top :: ops'' =>
                 match type top with
                 | fn => Ok ((output' ++ [top])%list, ops'')
                 | _ => Ok (output', ops')
                 end
             | [] => Ok (output', ops')
             end
  end.

(** The [for] loop. *)
Fixpoint shunt_all (tokens output ops : list Token) : result (list Token * list Token) :=
  match tokens with
  | [] => Ok (output, ops)
  | t :: tokens' =>
      match shunt t output ops with
      | Ok (output', ops') => shunt_all tokens' output' ops'
      | Throw m => Throw m
      end
  end.

(** The final [while (ops.length > 0)] loop. *)
Fixpoint drain (ops output : list Token) : result (list Token) :=
  match ops with
  | [] => Ok output
  | top :: ops' =>
      match type top with
      | paren => Throw "Mismatched parentheses"
      | _ => drain ops' (output ++ [top])%list
      end
  end.

Definition toRPN (tokens : list Token) : result (list Token) :=
  match shunt_all tokens [] [] with
  | Ok (output, ops) => drain ops output
  | Throw m => Throw m
  end.

(** *** evaluateRPN

    The head of [stack] is its top. *)

(** [stack.pop()]: [undefined] on an empty array. *)
Definition pop (stack : list JS.value) : JS.value * list JS.value :=
  match stack with
  | [] => (JS.VUndefined, [])
  | v :: stack' => (v, stack')
  end.

(** The [switch] of an operator on its operands. *)
Definition apply_op (o : string) (a b : JS.value) : result JS.value :=
  let x := JS.ToNumber a in
  let y := JS.ToNumber b in
  if String.eqb o "+" then Ok (JS.plus a b)
  else if String.eqb o "-" then Ok (JS.VNum (x - y)%float)
  else if String.eqb o "*" then Ok (JS.VNum (x * y)%float)
  else if String.eqb o "/" then
    if JS.strict_eq_0 b then Throw "Division by zero" else Ok (JS.VNum (x / y)%float)
  else if String.eqb o "^" then Ok (JS.VNum (JS.Math_pow x y))
  else Throw "Unknown operator".

(** The [switch] of a function on its argument. *)
Definition apply_fn (f : string) (a : JS.value) : result JS.value :=
  let x := JS.ToNumber a in
  if String.eqb f "sin" then Ok (JS.VNum (JS.Math_sin x))
  else if String.eqb f "cos" then Ok (JS.VNum (JS.Math_cos x))
  else if String.eqb f "tan" then Ok (JS.VNum (JS.Math_tan x))
  else if String.eqb f "log" then
    if (x <=? 0)%float then Throw "Log domain error" else Ok (JS.VNum (JS.Math_log10 x))
  else if String.eqb f "ln" then
    if (x <=? 0)%float then Throw "Ln domain error" else Ok (JS.VNum (JS.Math_log x))
  else if String.eqb f "sqrt" then
    if (x <? 0)%float then Throw "Sqrt domain error" else Ok (JS.VNum (JS.Math_sqrt x))
  else Throw "Unknown function".

(** One turn of [for (const t of rpn)]. *)
Definition eval_token (t : Token) (stack : list JS.value) : result (list JS.value) :=
  match type t with
  | number => Ok (JS.VNum (JS.Number (value t)) :: stack)
  | const => Ok (JS.get CONSTANTS (value t) :: stack)
  | op =>
      let (b, stack1) := pop stack in
      let (a, stack2) := pop stack1 in
      if JS.is_undefined a || JS.is_undefined b then Throw "Invalid expression"
      else match apply_op (value t) a b with
           | Ok v => Ok (v :: stack2)
           | Throw m => Throw m
           end
  | fn =>
      let (a, stack1) := pop stack in
      if JS.is_undefined a then Throw "Invalid function call"
      else match apply_fn (value t) a with
           | Ok v => Ok (v :: stack1)
           | Throw m => Throw m
           end
  | paren => Ok stack
  end.

Fixpoint eval_tokens (rpn : list Token) (stack : list JS.value) : result (list JS.value) :=
  match rpn with
  | [] => Ok stack
  | t :: rpn' =>
      match eval_token t stack with
      | Ok stack' => eval_tokens rpn' stack'
      | Throw m => Throw m
      end
  end.

Definition evaluateRPN (rpn : list Token) : result JS.value :=
  match eval_tokens rpn [] with
  | Ok stack =>
      match stack with
      | [v] => Ok v
      | _ => Throw "Invalid expression"
      end
  | Throw m => Throw m
  end.

Definition evaluate (expr : string) : result JS.value :=
  let* tokens := tokenize expr in
  let* rpn := toRPN tokens in
  evaluateRPN rpn.

End WithHost.

End Parser.

(** ** calculator.ts *)

Module Calculator.

(** The object: its [input] field, and the strings its [onChange] callback
    has been called with so far, oldest first. *)
Record state : Type := { input : string; shown : list string }.

(** [this.onChange(s)] *)
Definition onChange (s : string) (c : state) : state :=
  {| input := input c; shown := (shown c ++ [s])%list |}.

Definition set_input (s : string) (c : state) : state :=
  {| input := s; shown := shown c |}.

(** [[0-9a-zA-Z+\-*/^().]] *)
Definition is_allowed_char (ch : ascii) : bool :=
  JS.is_digit ch || JS.is_letter ch || Parser.is_operator_char ch
  || Parser.is_paren_char ch || Ascii.eqb ch ".".

Definition append (value : string) (c : state) : state :=
  if negb (JS.forallb is_allowed_char value) then c
  else
    let c := set_input (input c ++ value) c in
    onChange (JS.or_default (input c) "0") c.

Definition backspace (c : state) : state :=
  let c := set_input (JS.slice_0_minus1 (input c)) c in
  onChange (JS.or_default (input c) "0") c.

Definition clear (c : state) : state :=
  let c := set_input "" c in
  onChange "0" c.

(** [0+$] at the start of [s]: [s] is one or more zeros. *)
Definition zeros (s : string) : bool :=
  negb (JS.is_empty s) && JS.forallb (Ascii.eqb "0") s.

(** [s.replace(/(?:\.0+|(?<=\.[0-9]*[1-9])0+)$/, '')]: the leftmost match is
    removed.  A match is a suffix of [s]: a dot and then zeros, or zeros
    that follow a dot, digits and a digit other than zero.  [frac] says
    that the text before the current position ends with [\.[0-9]*], and
    [behind] that it ends with [\.[0-9]*[1-9]]. *)
Fixpoint replace_fraction_zeros (frac behind : bool) (s : string) : string :=
  match s with
  | EmptyString => EmptyString
  | String ch s' =>
      if (Ascii.eqb ch "." && zeros s') || (behind && zeros s) then EmptyString
      else
        let frac' := Ascii.eqb ch "." || (JS.is_digit ch && frac) in
        let behind' := JS.between 49 57 ch && frac in
        String ch (replace_fraction_zeros frac' behind' s')
  end.

(** [s.replace(/\.?0+$/, '')]: the leftmost match is removed. *)
Fixpoint replace_trailing_zeros (s : string) : string :=
  match s with
  | EmptyString => EmptyString
  | String ch s' =>
      if (Ascii.eqb ch "." && zeros s') || zeros s then EmptyString
      else String ch (replace_trailing_zeros s')
  end.

Definition format (n : float) : string :=
  let s := JS.toPrecision (JS.parseFloat_String n) 12 in
  replace_trailing_zeros (replace_fraction_zeros false false s).

Section WithHost.

Context `{host : JS.Host}.

Definition evaluate (c : state) : state :=
  match Parser.evaluate (JS.or_default (input c) "0") with
  | Ok result =>
      let out := if JS.Number_isFinite result then format (JS.ToNumber result)
                 else "Error" in
      let c := set_input out c in
      onChange (input c) c
  | Throw message => onChange ("Error: " ++ message) c
  end.

End WithHost.

End Calculator.

(** ** An engine for the examples

    Its [Math.pow] multiplies out an exponent that is a natural number, and its
    [Math.sqrt] is the correctly rounded square root.  Nothing below depends
    on the values it gives elsewhere. *)

Module Engine.

Fixpoint power (x : float) (n : nat) : float :=
  match n with
  | O => 1%float
  | S n' => (x * power x n')%float
  end.

(** The natural number [y] is, when it is one. *)
Definition natural (y : float) : option nat :=
  match Prim2SF y with
  | S754_zero _ => Some O
  | S754_finite false m e =>
      if (0 <=? e)%Z then Some (Z.to_nat (Zpos m * 2 ^ e))
      else if (Zpos m mod 2 ^ (- e) =? 0)%Z then Some (Z.to_nat (Zpos m / 2 ^ (- e)))
      else None
  | _ => None
  end.

Definition pow (x y : float) : float :=
  match natural y with
  | Some n => power x n
  | None => nan
  end.

Definition host : JS.Host := {|
  JS.Math_sin := fun _ => nan;
  JS.Math_cos := fun _ => nan;
  JS.Math_tan := fun _ => nan;
  JS.Math_log10 := fun _ => nan;
  JS.Math_log := fun _ => nan;
  JS.Math_sqrt := PrimFloat.sqrt;
  JS.Math_pow := pow;
  JS.member_lt := String.ltb
|}.

End Engine.

(** ** Notions the properties are stated with *)

Module Spec.

Import Parser.

(** The kinds of failure, by the message thrown. *)
Inductive Failure : Type := LexError | SyntaxError | EvalError | DivisionByZero | DomainError.

Definition kind (message : string) : option Failure :=
  if String.eqb message "Invalid number format"
     || prefix "Unknown identifier: " message
     || prefix "Invalid character: " message then Some LexError
  else if String.eqb message "Mismatched parentheses" then Some SyntaxError
  else if String.eqb message "Invalid expression"
          || String.eqb message "Invalid function call" then Some EvalError
  else if String.eqb message "Division by zero" then Some DivisionByZero
  else if String.eqb message "Log domain error"
          || String.eqb message "Ln domain error"
          || String.eqb message "Sqrt domain error" then Some DomainError
  else None.





(** Tokens, written by their type. *)
Definition Num (v : string) : Token := {| type := number; value := v |}.
Definition Op (v : string) : Token := {| type := op; value := v |}.
Definition Fn (v : string) : Token := {| type := fn; value := v |}.
Definition Const (v : string) : Token := {| type := const; value := v |}.
Definition Open : Token := {| type := paren; value := "(" |}.
Definition Close : Token := {| type := paren; value := ")" |}.

(** Parentheses as [toRPN] reads them: a ['paren'] token opens when its
    value is ["("] and closes otherwise. *)
Definition is_paren (t : Token) : bool := type_eqb (type t) paren.

Definition opens (t : Token) : bool := is_paren t && String.eqb (value t) "(".

Definition closes (t : Token) : bool := is_paren t && negb (String.eqb (value t) "(").

(** Nesting is balanced: no closing parenthesis without an open one before
    it, and none left open at the end. *)
Fixpoint balanced_from (depth : nat) (tokens : list Token) : bool :=
  match tokens with
  | [] => (depth =? 0)%nat
  | t :: tokens' =>
      if opens t then balanced_from (S depth) tokens'
      else if closes t then
        match depth with
        | O => false
        | S depth' => balanced_from depth' tokens'
        end
      else balanced_from depth tokens'
  end.

Definition balanced (tokens : list Token) : bool := balanced_from 0 tokens.

(** The number of parentheses on an operator stack. *)
Definition parens (ops : list Token) : nat := List.length (List.filter is_paren ops).

(** Every parenthesis on an operator stack is an open one. *)
Definition open_only (ops : list Token) : bool :=
  List.forallb (fun t => negb (is_paren t) || opens t) ops.

Definition no_paren (output : list Token) : bool :=
  List.forallb (fun t => negb (is_paren t)) output.

(** [expr.replace(/\s+/g, '')], the text [tokenize] scans. *)
Definition clean (expr : string) : string :=
  JS.filter (fun c => negb (JS.is_space c)) expr.

Definition first_char (s : string) : option ascii :=
  match s with
  | String c _ => Some c
  | EmptyString => None
  end.

Fixpoint last_char (s : string) : option ascii :=
  match s with
  | EmptyString => None
  | String c EmptyString => Some c
  | String _ s' => last_char s'
  end.

(** [s] starts with a digit or a dot. *)
Definition starts_number (s : string) : bool :=
  match first_char s with
  | Some f => is_number_char f
  | None => false
  end.

(** The scan makes no token of the end of [a] and the start of [x]
    together: they are not both characters of a number, nor both characters
    of a name. *)
Definition separate (a x : string) : bool :=
  match last_char a, first_char x with
  | Some l, Some f =>
      negb (is_number_char l && is_number_char f)
      && negb (is_identifier_char l && is_identifier_char f)
  | _, _ => true
  end.

(** One of the three stages of [Parser.evaluate] throws [message] on [expr]. *)
Definition pipeline_fails `{host : JS.Host} (expr message : string) : Prop :=
  tokenize expr = Throw message
  \/ (exists tokens, tokenize expr = Ok tokens /\ toRPN tokens = Throw message)
  \/ (exists tokens rpn, tokenize expr = Ok tokens /\ toRPN tokens = Ok rpn
                         /\ evaluateRPN rpn = Throw message).

End Spec.

(** ** main.ts *)

Module Main.

(** The element a click lands on, with its [data-fn] and [data-val]
    attributes; [getAttribute] gives [null], here [None], for an attribute
    that is not set. *)
Record element : Type := { data_fn : option string; data_val : option string }.

(** [if (a)] on an attribute: [null] and the empty string are falsy. *)
Definition truthy (a : option string) : bool :=
  match a with
  | Some s => negb (JS.is_empty s)
  | None => false
  end.

(** [/^[a-z]+$/] *)
Definition is_lowercase_word (val : string) : bool :=
  negb (JS.is_empty val) && JS.forallb (JS.between 97 122) val.

(** [/^[0-9+\-*/^().]$/] *)
Definition is_expression_key (key : string) : bool :=
  match key with
  | String ch EmptyString =>
      JS.is_digit ch || Parser.is_operator_char ch || Parser.is_paren_char ch
      || Ascii.eqb ch "."
  | _ => false
  end.

(** [const calc = new Calculator(...)] followed, at the end of the file, by
    [calc.clear()]. *)
Definition start : Calculator.state :=
  Calculator.clear {| Calculator.input := ""; Calculator.shown := [] |}.

Section WithHost.

Context `{host : JS.Host}.

(** The listener of ['click'] on the buttons; [target] is [ev.target]. *)
Definition click (target : option element) (calc : Calculator.state) : Calculator.state :=
  match target with
  | None => calc
  | Some target =>
      let fn := data_fn target in
      let val := data_val target in
      if truthy fn then
        match fn with
        | Some fn =>
            if String.eqb fn "clear" then Calculator.clear calc
            else if String.eqb fn "back" then Calculator.backspace calc
            else if String.eqb fn "equals" then Calculator.evaluate calc
            else calc
        | None => calc
        end
      else if truthy val then
        match val with
        | Some val =>
            if is_lowercase_word val then Calculator.append (val ++ "(") calc
            else Calculator.append val calc
        | None => calc
        end
      else calc
  end.

(** The listener of ['keydown'] on the window; [key] is [ev.key]. *)
Definition keydown (key : string) (calc : Calculator.state) : Calculator.state :=
  if String.eqb key "Enter" then Calculator.evaluate calc
  else if String.eqb key "Backspace" then Calculator.backspace calc
  else if String.eqb key "Escape" then Calculator.clear calc
  else if is_expression_key key then Calculator.append key calc
  else calc.

(** The keys of [keys] pressed one after the other. *)
Fixpoint keydowns (keys : list string) (calc : Calculator.state) : Calculator.state :=
  match keys with
  | [] => calc
  | key :: keys' => keydowns keys' (keydown key calc)
  end.

End WithHost.

End Main.

(** ** Expressions

    The texts the parser is written for, as trees: literals, names of
    constants, calls [f(e)], groups [(e)] and binary operations. *)

Module Expr.

Import Parser.

Inductive binop : Type := Add | Sub | Mul | Div | Pow.

Definition symbol (o : binop) : string :=
  match o with
  | Add => "+"
  | Sub => "-"
  | Mul => "*"
  | Div => "/"
  | Pow => "^"
  end.

Inductive expr : Type :=
| Lit (v : string)
| Name (c : string)
| Call (f : string) (arg : expr)
| Group (e : expr)
| Bin (o : binop) (l r : expr).

(** The precedence of an operator, and the least precedence an operation may
    have to stand as its left or its right operand without parentheses:
    [+ - * /] group to the left and [^] to the right. *)
Definition level (o : binop) : nat :=
  match o with
  | Add | Sub => 1
  | Mul | Div => 2
  | Pow => 3
  end.

Definition left_level (o : binop) : nat :=
  match o with
  | Pow => 4
  | _ => level o
  end.

Definition right_level (o : binop) : nat :=
  match o with
  | Pow => 3
  | _ => S (level o)
  end.

(** [e] can stand where an operand of precedence at least [p] is expected. *)
Fixpoint fits (p : nat) (e : expr) : bool :=
  match e with
  | Lit _ | Name _ => true
  | Call _ arg => fits 1 arg
  | Group e' => fits 1 e'
  | Bin o l r => (p <=? level o)%nat && fits (left_level o) l && fits (right_level o) r
  end.

(** The tokens of [e] as written, and in postfix order. *)
Fixpoint infix (e : expr) : list Token :=
  match e with
  | Lit v => [{| type := number; value := v |}]
  | Name c => [{| type := const; value := c |}]
  | Call f arg =>
      ({| type := fn; value := f |} :: {| type := paren; value := "(" |} :: infix arg
       ++ [{| type := paren; value := ")" |}])%list
  | Group e' =>
      ({| type := paren; value := "(" |} :: infix e'
       ++ [{| type := paren; value := ")" |}])%list
  | Bin o l r => (infix l ++ {| type := op; value := symbol o |} :: infix r)%list
  end.

Fixpoint postfix (e : expr) : list Token :=
  match e with
  | Lit v => [{| type := number; value := v |}]
  | Name c => [{| type := const; value := c |}]
  | Call f arg => (postfix arg ++ [{| type := fn; value := f |}])%list
  | Group e' => postfix e'
  | Bin o l r => (postfix l ++ postfix r ++ [{| type := op; value := symbol o |}])%list
  end.

(** The text of [e]. *)
Fixpoint render (e : expr) : string :=
  match e with
  | Lit v => v
  | Name c => c
  | Call f arg => f ++ "(" ++ render arg ++ ")"
  | Group e' => "(" ++ render e' ++ ")"
  | Bin o l r => render l ++ symbol o ++ render r
  end.

(** The text of a literal: digits and at most one dot. *)
Definition is_literal (v : string) : bool :=
  negb (JS.is_empty v) && JS.forallb is_number_char v
  && (JS.count (fun c => Ascii.eqb c ".") v <=? 1)%nat.

(** A name the tokenizer reads as one identifier. *)
Definition is_identifier (id : string) : bool :=
  match id with
  | String ch rest => JS.is_letter ch && JS.forallb is_identifier_char rest
  | EmptyString => false
  end.

(** The leaves of [e] are literals and names of constants, and it calls
    functions of [FUNCTIONS] only. *)
Fixpoint well_formed (e : expr) : bool :=
  match e with
  | Lit v => is_literal v
  | Name c => is_identifier c && negb (JS.has FUNCTIONS c) && JS.in_ c CONSTANTS
  | Call f arg => JS.has FUNCTIONS f && well_formed arg
  | Group e' => well_formed e'
  | Bin _ l r => well_formed l && well_formed r
  end.

(** Operands and operators among the tokens. *)
Definition is_operand (t : Token) : bool :=
  match type t with
  | number | const => true
  | _ => false
  end.

Definition is_operator (t : Token) : bool := type_eqb (type t) op.

(** A token as [tokenize] makes them. *)
Definition is_lexeme (t : Token) : bool :=
  match type t with
  | number => is_literal (value t)
  | op => JS.has ["+"; "-"; "*"; "/"; "^"] (value t)
  | paren => String.eqb (value t) "(" || String.eqb (value t) ")"
  | fn => JS.has FUNCTIONS (value t)
  | const => is_identifier (value t) && negb (JS.has FUNCTIONS (value t))
             && JS.in_ (value t) CONSTANTS
  end.

(** The operands of a list of tokens, and its tokens other than parentheses,
    in the order of the list. *)
Definition operands (tokens : list Token) : list Token := List.filter is_operand tokens.

Definition without_parens (tokens : list Token) : list Token :=
  List.filter (fun t => negb (Spec.is_paren t)) tokens.

(** The text a list of tokens was read from, spaces apart. *)
Fixpoint text_of (tokens : list Token) : string :=
  match tokens with
  | [] => ""
  | t :: tokens' => value t ++ text_of tokens'
  end.

Section WithHost.

Context `{host : JS.Host}.

(** A text before which a number or an identifier ends: it is empty or
    starts with a character that is neither a digit, a dot nor a letter. *)
Definition delimited (rest : string) : bool :=
  match rest with
  | EmptyString => true
  | String ch _ => negb (is_number_char ch) && negb (is_identifier_char ch)
  end.

(** The token of an operator. *)
Definition operator_token (o : binop) : Token := {| type := op; value := symbol o |}.

(** The stack keeps its top while operators of precedence [p] or more come
    in: the top is no function, and if it is an operator it does not yield
    to any of them. *)
Definition waits (p : nat) (ops : list Token) : bool :=
  match ops with
  | [] => true
  | top :: _ =>
      match type top with
      | fn => false
      | op =>
          List.forallb
            (fun o => negb (p <=? level o)%nat
                      || negb (yields top (operator_token o)))
            [Add; Sub; Mul; Div; Pow]
      | _ => true
      end
  end.

(** The value of [e]: operands from left to right, then the operation, with
    the checks [evaluateRPN] makes on what it pops. *)
Fixpoint value_of (e : expr) : result JS.value :=
  match e with
  | Lit v => Ok (JS.VNum (JS.Number v))
  | Name c => Ok (JS.get CONSTANTS c)
  | Call f arg =>
      let* a := value_of arg in
      if JS.is_undefined a then Throw "Invalid function call" else apply_fn f a
  | Group e' => value_of e'
  | Bin o l r =>
      let* a := value_of l in
      let* b := value_of r in
      if JS.is_undefined a || JS.is_undefined b then Throw "Invalid expression"
      else apply_op (symbol o) a b
  end.

End WithHost.

End Expr.

(** ** Texts *)

Module Text.

(** [s.endsWith(c)] for a character [c]. *)
Fixpoint ends_with (c : ascii) (s : string) : bool :=
  match s with
  | EmptyString => false
  | String ch EmptyString => Ascii.eqb ch c
  | String _ s' => ends_with c s'
  end.

(** [/\.0+$/.test(s)]: [s] ends with a dot and then zeros. *)
Fixpoint ends_with_dot_zeros (s : string) : bool :=
  match s with
  | EmptyString => false
  | String ch s' => (Ascii.eqb ch "." && Calculator.zeros s') || ends_with_dot_zeros s'
  end.

(** The number of dots in [s]. *)
Definition dots (s : string) : nat := JS.count (Ascii.eqb ".") s.

End Text.

(** ** Sessions of the calculator *)

Module Session.

Inductive action : Type :=
| Append (value : string)
| Backspace
| Clear
| Evaluate.

Section WithHost.

Context `{host : JS.Host}.

Definition step (a : action) (c : Calculator.state) : Calculator.state :=
  match a with
  | Append value => Calculator.append value c
  | Backspace => Calculator.backspace c
  | Clear => Calculator.clear c
  | Evaluate => Calculator.evaluate c
  end.

(** The calls of [actions], the first one first. *)
Fixpoint run (actions : list action) (c : Calculator.state) : Calculator.state :=
  match actions with
  | [] => c
  | a :: actions' => run actions' (step a c)
  end.

(** What the display holds: the string [onChange] was last called with. *)
Definition display (c : Calculator.state) : option string :=
  List.last (List.map Some (Calculator.shown c)) None.


End WithHost.

(** A new [Calculator]: [input] is empty and nothing has been shown. *)
Definition new : Calculator.state := {| Calculator.input := ""; Calculator.shown := [] |}.

(** The display has never held a report of an invalid character. *)
Definition never_reported_invalid_character (c : Calculator.state) : Prop :=
  Forall (fun s => prefix "Error: Invalid character: " s = false) (Calculator.shown c).

End Session.

(** * Properties *)

(** ** toRPN: parentheses *)

Section Parentheses.

Import Parser Spec.

Context `{host : JS.Host}.

Local Open Scope list_scope.

Lemma no_paren_push (output : list Token) (t : Token) :
  no_paren output = true -> is_paren t = false -> no_paren (output ++ [t]) = true.
Proof.
  unfold no_paren. intros Hout Ht.
  rewrite List.forallb_app, Hout. simpl. now rewrite Ht.
Qed.

Lemma is_paren_type (t : Token) : is_paren t = true <-> type t = paren.
Proof. unfold is_paren. destruct (type t); simpl; split; congruence. Qed.

Lemma parens_cons (t : Token) (ops : list Token) :
  parens (t :: ops) = if is_paren t then S (parens ops) else parens ops.
Proof. unfold parens. simpl. now destruct (is_paren t). Qed.

Lemma open_only_cons (t : Token) (ops : list Token) :
  open_only (t :: ops) = (negb (is_paren t) || opens t) && open_only ops.
Proof. reflexivity. Qed.

(** The operator loop moves functions and operators only. *)
Lemma pop_operators_spec (t : Token) (ops output : list Token) :
  let (ops', output') := pop_operators t ops output in
  parens ops' = parens ops
  /\ (open_only ops = true -> open_only ops' = true)
  /\ (no_paren output = true -> no_paren output' = true).
Proof.
  revert output. induction ops as [|top ops IH]; intros output; cbn [pop_operators].
  - auto.
  - destruct (type top) eqn:Etop; try (now auto).
    + (* op *)
      destruct (yields top t); [|now auto].
      specialize (IH (output ++ [top])).
      destruct (pop_operators t ops (output ++ [top])) as [ops' output'].
      destruct IH as (Hp & Ho & Hn).
      rewrite parens_cons, open_only_cons.
      assert (Hnp : is_paren top = false) by (unfold is_paren; now rewrite Etop).
      rewrite Hnp. simpl. repeat split; auto using no_paren_push.
    + (* fn *)
      specialize (IH (output ++ [top])).
      destruct (pop_operators t ops (output ++ [top])) as [ops' output'].
      destruct IH as (Hp & Ho & Hn).
      rewrite parens_cons, open_only_cons.
      assert (Hnp : is_paren top = false) by (unfold is_paren; now rewrite Etop).
      rewrite Hnp. simpl. repeat split; auto using no_paren_push.
Qed.

(** The closing loop stops at the nearest parenthesis, when there is one. *)
Lemma pop_to_paren_spec (ops output : list Token) :
  open_only ops = true ->
  let '(found, ops', output') := pop_to_paren ops output in
  (if found then parens ops = S (parens ops') else parens ops = 0)
  /\ open_only ops' = true
  /\ (no_paren output = true -> no_paren output' = true).
Proof.
  revert output. induction ops as [|top ops IH]; intros output Hops; cbn [pop_to_paren].
  - auto.
  - rewrite open_only_cons in Hops. apply andb_prop in Hops as [Htop Hops].
    rewrite parens_cons.
    fold (is_paren top). fold (opens top).
    destruct (opens top) eqn:Eopen.
    + unfold opens in Eopen. apply andb_prop in Eopen as [Ep _]. rewrite Ep. auto.
    + rewrite orb_false_r in Htop. apply negb_true_iff in Htop. rewrite Htop.
      specialize (IH (output ++ [top]) Hops).
      destruct (pop_to_paren ops (output ++ [top])) as [[found ops'] output'].
      destruct IH as (Hp & Ho & Hn). repeat split; auto using no_paren_push.
Qed.

(** One turn of the loop keeps the stack discipline and follows the depth. *)
Lemma shunt_spec (t : Token) (output ops : list Token) :
  open_only ops = true ->
  match shunt t output ops with
  | Ok (output', ops') =>
      open_only ops' = true
      /\ (no_paren output = true -> no_paren output' = true)
      /\ (forall rest, balanced_from (parens ops) (t :: rest)
                       = balanced_from (parens ops') rest)
  | Throw m => m = "Mismatched parentheses" /\ forall rest, balanced_from (parens ops) (t :: rest) = false
  end.
Proof.
  intros Hops. unfold shunt. cbn [balanced_from]. unfold opens, closes.
  destruct (is_paren t) eqn:Ep.
  - apply is_paren_type in Ep. rewrite Ep. cbn [andb negb].
    destruct (String.eqb (value t) "(") eqn:Ev; cbn [negb].
    + rewrite open_only_cons, parens_cons. unfold opens.
      assert (Ep' : is_paren t = true) by now apply is_paren_type.
      rewrite Ep', Ev. cbn. auto.
    + pose proof (pop_to_paren_spec ops output Hops) as Hpop.
      destruct (pop_to_paren ops output) as [[found ops'] output'].
      destruct Hpop as (Hp & Ho & Hn).
      destruct found; cbn [negb].
      * rewrite Hp.
        destruct ops' as [|top ops'']; [now auto|].
        destruct (type top) eqn:Etop; try (now repeat split; auto).
        rewrite open_only_cons in Ho. apply andb_prop in Ho as [_ Ho].
        rewrite parens_cons. unfold is_paren at 1. rewrite Etop. cbn [type_eqb].
        repeat split; auto.
        intros. apply no_paren_push; auto. unfold is_paren. now rewrite Etop.
      * rewrite Hp. auto.
  - cbn [andb].
    assert (Hpush : no_paren output = true -> no_paren (output ++ [t]) = true)
      by (intros; now apply no_paren_push).
    destruct (type t) eqn:Et.
    + auto.
    + pose proof (pop_operators_spec t ops output) as Hpop.
      destruct (pop_operators t ops output) as [ops' output'].
      destruct Hpop as (Hp & Ho & Hn).
      rewrite open_only_cons, parens_cons, Ep, Hp. cbn. auto.
    + rewrite open_only_cons, parens_cons, Ep. cbn. auto.
    + unfold is_paren in Ep. rewrite Et in Ep. discriminate.
    + auto.
Qed.

Lemma shunt_all_spec (tokens output ops : list Token) :
  open_only ops = true ->
  match shunt_all tokens output ops with
  | Ok (output', ops') =>
      open_only ops' = true
      /\ (no_paren output = true -> no_paren output' = true)
      /\ balanced_from (parens ops) tokens = (parens ops' =? 0)%nat
  | Throw m => m = "Mismatched parentheses" /\ balanced_from (parens ops) tokens = false
  end.
Proof.
  revert output ops. induction tokens as [|t tokens IH]; intros output ops Hops.
  - simpl. auto.
  - cbn [shunt_all]. pose proof (shunt_spec t output ops Hops) as Hstep.
    destruct (shunt t output ops) as [[output1 ops1]|m].
    + destruct Hstep as (Ho & Hn & Hb). rewrite Hb.
      specialize (IH output1 ops1 Ho).
      destruct (shunt_all tokens output1 ops1) as [[output' ops']|m].
      * destruct IH as (Ho' & Hn' & Hb'). auto.
      * exact IH.
    + destruct Hstep as (Hm & Hb). auto.
Qed.

Lemma drain_spec (ops output : list Token) :
  match drain ops output with
  | Ok output' => parens ops = 0 /\ (no_paren output = true -> no_paren output' = true)
  | Throw m => m = "Mismatched parentheses" /\ parens ops <> 0
  end.
Proof.
  revert output. induction ops as [|top ops IH]; intros output; cbn [drain].
  - auto.
  - rewrite parens_cons.
    destruct (is_paren top) eqn:Ep.
    + apply is_paren_type in Ep. rewrite Ep. split; [reflexivity|lia].
    + specialize (IH (output ++ [top])).
      assert (Hdrain : match type top with
                       | paren => Throw "Mismatched parentheses"
                       | _ => drain ops (output ++ [top])
                       end = drain ops (output ++ [top])).
      { unfold is_paren in Ep. now destruct (type top). }
      rewrite Hdrain.
      destruct (drain ops (output ++ [top])) as [output'|m]; [|exact IH].
      destruct IH as [Hp Hn]. split; [exact Hp|].
      intros. now apply Hn, no_paren_push.
Qed.

(** [toRPN] succeeds on balanced input and on no other, and what it returns
    holds no parenthesis. *)
Lemma toRPN_spec (tokens : list Token) :
  match toRPN tokens with
  | Ok output => balanced tokens = true /\ no_paren output = true
  | Throw m => m = "Mismatched parentheses" /\ balanced tokens = false
  end.
Proof.
  unfold toRPN, balanced.
  pose proof (shunt_all_spec tokens [] [] eq_refl) as Hall.
  destruct (shunt_all tokens [] []) as [[output ops]|m]; [|exact Hall].
  destruct Hall as (Ho & Hn & Hb). change (parens []) with 0 in Hb.
  pose proof (drain_spec ops output) as Hd.
  destruct (drain ops output) as [output'|m].
  - destruct Hd as [Hp Hn']. rewrite Hb, Hp. auto.
  - destruct Hd as [Hm Hp]. rewrite Hb. split; [exact Hm|].
    now apply Nat.eqb_neq.
Qed.

End Parentheses.

(** ** evaluateRPN: where it throws *)

Section Evaluation.

Import Parser.

Context `{host : JS.Host}.

Local Open Scope list_scope.

Lemma eval_tokens_app (pre post : list Token) (stack : list JS.value) :
  eval_tokens (pre ++ post) stack
  = match eval_tokens pre stack with
    | Ok stack' => eval_tokens post stack'
    | Throw m => Throw m
    end.
Proof.
  revert stack. induction pre as [|t pre IH]; intros stack; cbn [eval_tokens app].
  - reflexivity.
  - destruct (eval_token t stack); [apply IH|reflexivity].
Qed.

(** The loop throws what the first failing turn throws. *)
Lemma eval_tokens_throw (rpn : list Token) (stack : list JS.value) (m : string) :
  eval_tokens rpn stack = Throw m <->
  exists pre t post stack',
    rpn = pre ++ t :: post
    /\ eval_tokens pre stack = Ok stack'
    /\ eval_token t stack' = Throw m.
Proof.
  split.
  - revert stack. induction rpn as [|t rpn IH]; intros stack; cbn [eval_tokens].
    + discriminate.
    + destruct (eval_token t stack) as [stack1|m1] eqn:Et.
      * intros H. destruct (IH _ H) as (pre & t' & post & s & -> & Hpre & Ht').
        exists (t :: pre), t', post, s. cbn [eval_tokens app]. rewrite Et. auto.
      * intros [= ->]. exists [], t, rpn, stack. auto.
  - intros (pre & t & post & s & -> & Hpre & Ht).
    rewrite eval_tokens_app, Hpre. cbn [eval_tokens]. now rewrite Ht.
Qed.

Lemma evaluateRPN_throw (rpn : list Token) (m : string) :
  evaluateRPN rpn = Throw m <->
  (exists pre t post stack,
      rpn = pre ++ t :: post
      /\ eval_tokens pre [] = Ok stack
      /\ eval_token t stack = Throw m)
  \/ (exists stack,
        eval_tokens rpn [] = Ok stack
        /\ List.length stack <> 1
        /\ m = "Invalid expression").
Proof.
  unfold evaluateRPN. split.
  - destruct (eval_tokens rpn []) as [stack|m1] eqn:E.
    + destruct stack as [|v [|w stack]]; try discriminate;
        intros [= <-]; right; eexists; repeat split; simpl; lia.
    + intros [= ->]. left. now apply eval_tokens_throw.
  - intros [H|(stack & E & Hlen & ->)].
    + apply eval_tokens_throw in H. now rewrite H.
    + rewrite E. destruct stack as [|v [|w stack]]; simpl in Hlen; try reflexivity; lia.
Qed.

(** An operator on fewer than two operands. *)
Lemma eval_token_op_underflow (t : Token) (stack : list JS.value) :
  type t = op -> List.length stack < 2 ->
  eval_token t stack = Throw "Invalid expression".
Proof.
  intros Ht Hlen. unfold eval_token. rewrite Ht.
  destruct stack as [|b [|a stack]]; simpl in Hlen; try lia; cbn.
  - reflexivity.
  - reflexivity.
Qed.

(** A function on no operand. *)
Lemma eval_token_fn_underflow (t : Token) :
  type t = fn -> eval_token t [] = Throw "Invalid function call".
Proof. intros Ht. unfold eval_token. now rewrite Ht. Qed.

Ltac by_name f :=
  repeat match goal with
    | |- context [String.eqb f ?s] =>
        let E := fresh "E" in
        destruct (String.eqb f s) eqn:E;
        [apply String.eqb_eq in E; try subst f|]
    end.

Lemma apply_op_throw (o : string) (a b : JS.value) (m : string) :
  apply_op o a b = Throw m ->
  (o = "/" /\ JS.strict_eq_0 b = true /\ m = "Division by zero")
  \/ (m = "Unknown operator"
      /\ o <> "+" /\ o <> "-" /\ o <> "*" /\ o <> "/" /\ o <> "^").
Proof.
  unfold apply_op. by_name o; try discriminate.
  - destruct (JS.strict_eq_0 b); [|discriminate]. intros [= <-]. auto.
  - intros [= <-]. right. repeat split; intros ->; discriminate.
Qed.

Lemma apply_fn_throw (f : string) (a : JS.value) (m : string) :
  apply_fn f a = Throw m ->
  (f = "log" /\ (JS.ToNumber a <=? 0)%float = true /\ m = "Log domain error")
  \/ (f = "ln" /\ (JS.ToNumber a <=? 0)%float = true /\ m = "Ln domain error")
  \/ (f = "sqrt" /\ (JS.ToNumber a <? 0)%float = true /\ m = "Sqrt domain error")
  \/ (m = "Unknown function" /\ ~ List.In f FUNCTIONS).
Proof.
  unfold apply_fn. by_name f; try discriminate.
  - destruct (_ <=? _)%float; [|discriminate]. intros [= <-]. auto.
  - destruct (_ <=? _)%float; [|discriminate]. intros [= <-]. auto.
  - destruct (_ <? _)%float; [|discriminate]. intros [= <-]. auto 6.
  - intros [= <-]. do 3 right. split; [reflexivity|].
    simpl. intros [<-|[<-|[<-|[<-|[<-|[<-|[]]]]]]]; discriminate.
Qed.

(** Every way a turn of the loop can throw. *)
Lemma eval_token_throw (t : Token) (stack : list JS.value) (m : string) :
  eval_token t stack = Throw m ->
  (type t = op
   /\ ((m = "Invalid expression"
        /\ (List.length stack < 2
            \/ exists b a rest, stack = b :: a :: rest
                 /\ (JS.is_undefined a || JS.is_undefined b = true)))
       \/ exists b a rest, stack = b :: a :: rest
            /\ JS.is_undefined a = false /\ JS.is_undefined b = false
            /\ apply_op (value t) a b = Throw m))
  \/ (type t = fn
      /\ ((m = "Invalid function call"
           /\ (stack = [] \/ exists rest, stack = JS.VUndefined :: rest))
          \/ exists a rest, stack = a :: rest
               /\ JS.is_undefined a = false
               /\ apply_fn (value t) a = Throw m)).
Proof.
  unfold eval_token. destruct (type t); try discriminate.
  - intros H. left. split; [reflexivity|].
    destruct stack as [|b [|a rest]]; cbn [pop] in H.
    + cbn in H. injection H as <-. left. split; [reflexivity|]. left. simpl. lia.
    + cbn in H. injection H as <-. left. split; [reflexivity|]. left. simpl. lia.
    + destruct (JS.is_undefined a || JS.is_undefined b) eqn:Eu.
      * injection H as <-. left. split; [reflexivity|]. right. now exists b, a, rest.
      * apply orb_false_elim in Eu as [Ea Eb].
        destruct (apply_op (value t) a b) eqn:Eop; [discriminate|].
        injection H as <-. right. now exists b, a, rest.
  - intros H. right. split; [reflexivity|].
    destruct stack as [|a rest]; cbn [pop] in H.
    + cbn in H. injection H as <-. auto.
    + destruct (JS.is_undefined a) eqn:Ea.
      * injection H as <-. left. split; [reflexivity|]. right.
        destruct a; try discriminate. now exists rest.
      * destruct (apply_fn (value t) a) eqn:Efn; [discriminate|].
        injection H as <-. right. now exists a, rest.
Qed.

(** Apart from "Invalid expression", [evaluateRPN] throws only what a turn
    of its loop throws. *)
Lemma evaluateRPN_throw_turn (rpn : list Token) (m : string) :
  m <> "Invalid expression" ->
  evaluateRPN rpn = Throw m <->
  exists pre t post stack,
    rpn = pre ++ t :: post
    /\ eval_tokens pre [] = Ok stack
    /\ eval_token t stack = Throw m.
Proof.
  intros Hm. rewrite evaluateRPN_throw. split.
  - intros [H|(stack & _ & _ & ->)]; [exact H|contradiction].
  - auto.
Qed.

End Evaluation.

(** ** tokenize: runs of characters *)

Section Tokenizer.

Import Parser.

Local Open Scope list_scope.

Lemma append_empty (s : string) : (s ++ "")%string = s.
Proof. induction s as [|c s IH]; simpl; [reflexivity|now rewrite IH]. Qed.

Lemma append_str (s : string) (c : ascii) (t : string) :
  ((s ++ JS.str c) ++ t)%string = (s ++ String c t)%string.
Proof. induction s as [|d s IH]; simpl; [reflexivity|now rewrite IH]. Qed.

(** The number branch takes the longest run of [[0-9.]]. *)
Lemma tokenize_loop_number (ch : ascii) (rest : string) (tokens : list Token) :
  is_number_char ch = true ->
  tokenize_loop (String ch rest) tokens
  = let (run, r) := JS.span is_number_char rest in
    match number_token (String ch run) with
    | Ok t => tokenize_loop r (tokens ++ [t])
    | Throw m => Throw m
    end.
Proof.
  intros Hch. cbn [tokenize_loop]. rewrite Hch.
  change (String ch) with (String.append (JS.str ch)).
  generalize (JS.str ch) as num.
  induction rest as [|c rest IH]; intros num.
  - cbn [JS.span]. now rewrite append_empty.
  - cbn [JS.span]. destruct (is_number_char c) eqn:Ec.
    + rewrite IH. destruct (JS.span is_number_char rest) as [run r].
      now rewrite append_str.
    + now rewrite append_empty.
Qed.

(** The letter branch takes the longest run of [[a-zA-Z0-9]]. *)
Lemma tokenize_loop_identifier (ch : ascii) (rest : string) (tokens : list Token) :
  is_number_char ch = false -> JS.is_letter ch = true ->
  tokenize_loop (String ch rest) tokens
  = let (run, r) := JS.span is_identifier_char rest in
    match identifier_token (String ch run) with
    | Ok t => tokenize_loop r (tokens ++ [t])
    | Throw m => Throw m
    end.
Proof.
  intros Hn Hch. cbn [tokenize_loop]. rewrite Hn, Hch.
  change (String ch) with (String.append (JS.str ch)).
  generalize (JS.str ch) as id.
  induction rest as [|c rest IH]; intros id.
  - cbn [JS.span]. now rewrite append_empty.
  - cbn [JS.span]. destruct (is_identifier_char c) eqn:Ec.
    + rewrite IH. destruct (JS.span is_identifier_char rest) as [run r].
      now rewrite append_str.
    + now rewrite append_empty.
Qed.

Lemma span_all (p : ascii -> bool) (s : string) :
  JS.forallb p s = true -> JS.span p s = (s, "").
Proof.
  induction s as [|c s IH]; simpl; [reflexivity|].
  intros H. apply andb_prop in H as [Hc Hs]. now rewrite Hc, IH.
Qed.

Lemma split_length (sep : ascii) (s : string) :
  List.length (JS.split sep s) = S (JS.count (fun c => Ascii.eqb c sep) s).
Proof.
  induction s as [|c s IH]; simpl; [reflexivity|].
  destruct (Ascii.eqb c sep); simpl; [now rewrite IH|].
  destruct (JS.split sep s); simpl in *; congruence.
Qed.

Lemma number_char_not_space (c : ascii) :
  is_number_char c = true -> JS.is_space c = false.
Proof.
  unfold is_number_char, JS.is_space, JS.is_digit, JS.between, JS.code.
  intros H. apply orb_prop in H as [H|H].
  - apply andb_prop in H as [H1 H2].
    apply Nat.leb_le in H1. apply Nat.leb_le in H2.
    repeat (apply orb_false_intro); try apply andb_false_intro2;
      try apply Nat.leb_gt; try apply Nat.eqb_neq; lia.
  - apply Ascii.eqb_eq in H. now subst c.
Qed.

Lemma filter_number_chars (s : string) :
  JS.forallb is_number_char s = true ->
  JS.filter (fun c => negb (JS.is_space c)) s = s.
Proof.
  induction s as [|c s IH]; simpl; [reflexivity|].
  intros H. apply andb_prop in H as [Hc Hs].
  now rewrite (number_char_not_space c Hc), IH.
Qed.

(** A run of digits and dots with at most one dot is one number token,
    whether or not it holds a digit. *)
Lemma tokenize_number_run (s : string) :
  s <> "" ->
  JS.forallb is_number_char s = true ->
  JS.count (fun c => Ascii.eqb c ".") s <= 1 ->
  tokenize s = Ok [{| type := number; value := s |}].
Proof.
  intros Hne Hall Hdots. unfold tokenize. rewrite (filter_number_chars s Hall).
  destruct s as [|ch rest]; [congruence|].
  pose proof Hall as Hall'. simpl in Hall'. apply andb_prop in Hall' as [Hch Hrest].
  rewrite (tokenize_loop_number ch rest [] Hch), (span_all _ _ Hrest).
  unfold number_token. rewrite split_length.
  destruct (Nat.ltb_spec 2 (S (JS.count (fun c => Ascii.eqb c ".") (String ch rest))));
    [lia|reflexivity].
Qed.

Lemma span_length (p : ascii -> bool) (s : string) :
  String.length (snd (JS.span p s)) <= String.length s.
Proof.
  induction s as [|c s IH]; simpl; [lia|].
  destruct (p c); [|simpl; lia].
  destruct (JS.span p s) as [run r]. simpl in *. lia.
Qed.

Lemma kind_unknown_identifier (id : string) :
  Spec.kind ("Unknown identifier: " ++ id) = Some Spec.LexError.
Proof.
  unfold Spec.kind.
  assert (H : prefix "Unknown identifier: " ("Unknown identifier: " ++ id) = true)
    by (destruct id; reflexivity).
  now rewrite H, orb_true_r.
Qed.

Lemma kind_invalid_character (ch : ascii) :
  Spec.kind ("Invalid character: " ++ JS.str ch) = Some Spec.LexError.
Proof. reflexivity. Qed.

(** Whatever the loop throws is a lexical error. *)
Lemma tokenize_loop_throws_lexical (n : nat) :
  forall (cleaned : string) (tokens : list Token) (m : string),
    String.length cleaned <= n ->
    tokenize_loop cleaned tokens = Throw m -> Spec.kind m = Some Spec.LexError.
Proof.
  induction n as [|n IH]; intros cleaned tokens m Hlen.
  - destruct cleaned; [discriminate|simpl in Hlen; lia].
  - destruct cleaned as [|ch rest]; [discriminate|]. simpl in Hlen.
    destruct (is_number_char ch) eqn:Hn.
    + rewrite (tokenize_loop_number ch rest tokens Hn).
      pose proof (span_length is_number_char rest) as Hr.
      destruct (JS.span is_number_char rest) as [run r]. simpl in Hr.
      unfold number_token. destruct (_ <? _)%nat.
      * now intros [= <-].
      * apply IH. lia.
    + destruct (JS.is_letter ch) eqn:Hl.
      * rewrite (tokenize_loop_identifier ch rest tokens Hn Hl).
        pose proof (span_length is_identifier_char rest) as Hr.
        destruct (JS.span is_identifier_char rest) as [run r]. simpl in Hr.
        unfold identifier_token. destruct (JS.has FUNCTIONS _); [apply IH; lia|].
        destruct (JS.in_ _ CONSTANTS); [apply IH; lia|].
        intros [= <-]. apply kind_unknown_identifier.
      * cbn [tokenize_loop]. rewrite Hn, Hl.
        destruct (is_paren_char ch); [apply IH; lia|].
        destruct (is_operator_char ch); [apply IH; lia|].
        intros [= <-]. apply kind_invalid_character.
Qed.

Lemma tokenize_throws_lexical (expr m : string) :
  tokenize expr = Throw m -> Spec.kind m = Some Spec.LexError.
Proof. apply (tokenize_loop_throws_lexical _ _ _ _ (le_n _)). Qed.

Lemma string_app_assoc (a b c : string) : ((a ++ b) ++ c = a ++ (b ++ c))%string.
Proof. induction a as [|x a IH]; simpl; [reflexivity|now rewrite IH]. Qed.

(** What [span] returns: the run, what follows it, and why it stopped. *)
Lemma span_spec (p : ascii -> bool) (s : string) :
  let (run, rest) := JS.span p s in
  s = (run ++ rest)%string
  /\ JS.forallb p run = true
  /\ match rest with
     | EmptyString => True
     | String c _ => p c = false
     end.
Proof.
  induction s as [|c s IH]; cbn [JS.span].
  - auto.
  - destruct (p c) eqn:Ec.
    + destruct (JS.span p s) as [run rest]. destruct IH as (-> & Hrun & Hrest).
      cbn. rewrite Ec. auto.
    + cbn. auto.
Qed.

Lemma span_app (p : ascii -> bool) (run rest : string) :
  JS.forallb p run = true ->
  match rest with
  | EmptyString => True
  | String c _ => p c = false
  end ->
  JS.span p (run ++ rest) = (run, rest).
Proof.
  intros Hrun Hrest. induction run as [|c run IH]; cbn in *.
  - destruct rest as [|c rest]; [reflexivity|]. cbn. now rewrite Hrest.
  - apply andb_prop in Hrun as [Hc Hrun]. now rewrite Hc, IH.
Qed.

Lemma filter_app (p : ascii -> bool) (a b : string) :
  JS.filter p (a ++ b) = (JS.filter p a ++ JS.filter p b)%string.
Proof.
  induction a as [|c a IH]; cbn; [reflexivity|]. rewrite IH. now destruct (p c).
Qed.

Lemma last_char_app (a b : string) :
  b <> "" -> Spec.last_char (a ++ b) = Spec.last_char b.
Proof.
  intros Hb. induction a as [|c a IH]; [reflexivity|].
  change (String c a ++ b)%string with (String c (a ++ b)%string).
  cbn [Spec.last_char]. rewrite IH.
  destruct (a ++ b)%string eqn:E; [|reflexivity].
  destruct a; [cbn in E; congruence|discriminate].
Qed.

Lemma last_char_run (p : ascii -> bool) (c : ascii) (s : string) :
  p c = true -> JS.forallb p s = true ->
  exists l, Spec.last_char (String c s) = Some l /\ p l = true.
Proof.
  revert c. induction s as [|d s IH]; intros c Hc Hs.
  - now exists c.
  - cbn [JS.forallb] in Hs. apply andb_prop in Hs as [Hd Hs].
    destruct (IH d Hd Hs) as (l & Hl & Hp). exists l. split; [exact Hl|exact Hp].
Qed.

(** The tokens found so far play no part in the scan. *)
Lemma tokenize_loop_tokens (n : nat) :
  forall (cleaned : string) (tokens : list Token),
    String.length cleaned <= n ->
    tokenize_loop cleaned tokens
    = let* found := tokenize_loop cleaned [] in Ok (tokens ++ found).
Proof.
  induction n as [|n IH]; intros cleaned tokens Hlen.
  - destruct cleaned; [|simpl in Hlen; lia]. cbn. now rewrite app_nil_r.
  - destruct cleaned as [|ch rest]; [cbn; now rewrite app_nil_r|]. simpl in Hlen.
    assert (Hnext : forall (t : Token) (r : string),
               String.length r <= n ->
               tokenize_loop r (tokens ++ [t])
               = let* found := tokenize_loop r ([] ++ [t]) in Ok (tokens ++ found)).
    { intros t r Hr. rewrite (IH r (tokens ++ [t]) Hr), (IH r ([] ++ [t]) Hr).
      destruct (tokenize_loop r []) as [found|m]; cbn [bind]; [|reflexivity].
      now rewrite <- app_assoc. }
    destruct (is_number_char ch) eqn:Hn.
    + rewrite !(tokenize_loop_number ch rest _ Hn).
      pose proof (span_length is_number_char rest) as Hr.
      destruct (JS.span is_number_char rest) as [run r]. simpl in Hr.
      destruct (number_token (String ch run)) as [t|m]; [|reflexivity].
      apply Hnext. lia.
    + destruct (JS.is_letter ch) eqn:Hl.
      * rewrite !(tokenize_loop_identifier ch rest _ Hn Hl).
        pose proof (span_length is_identifier_char rest) as Hr.
        destruct (JS.span is_identifier_char rest) as [run r]. simpl in Hr.
        destruct (identifier_token (String ch run)) as [t|m]; [|reflexivity].
        apply Hnext. lia.
      * cbn [tokenize_loop]. rewrite Hn, Hl.
        destruct (is_paren_char ch); [apply Hnext; lia|].
        destruct (is_operator_char ch); [apply Hnext; lia|reflexivity].
Qed.

(** Where the scan meets a digit or a dot it takes the whole run, and makes
    one number token of it if it has at most one dot. *)
Lemma tokenize_loop_number_run (run rest : string) (tokens : list Token) :
  run <> "" ->
  JS.forallb is_number_char run = true ->
  JS.count (fun c => Ascii.eqb c ".") run <= 1 ->
  Spec.starts_number rest = false ->
  tokenize_loop (run ++ rest) tokens
  = tokenize_loop rest (tokens ++ [{| type := number; value := run |}]).
Proof.
  intros Hne Hall Hdots Hrest. destruct run as [|ch run]; [congruence|].
  cbn [JS.forallb] in Hall. apply andb_prop in Hall as [Hch Hrun].
  change (String ch run ++ rest)%string with (String ch (run ++ rest)%string).
  rewrite (tokenize_loop_number ch _ tokens Hch), (span_app is_number_char run rest Hrun).
  - unfold number_token. rewrite split_length.
    destruct (Nat.ltb_spec 2 (S (JS.count (fun c => Ascii.eqb c ".") (String ch run))));
      [lia|reflexivity].
  - destruct rest; [exact I|exact Hrest].
Qed.

(** The scan of a text is the scan of its beginning and then of what
    follows, when no token holds the end of the one and the start of the
    other. *)
Lemma tokenize_loop_app (n : nat) :
  forall (a x : string) (tokens : list Token),
    String.length a <= n ->
    Spec.separate a x = true ->
    tokenize_loop (a ++ x) tokens
    = let* found := tokenize_loop a tokens in tokenize_loop x found.
Proof.
  induction n as [|n IH]; intros a x tokens Hlen Hsep.
  - destruct a; [reflexivity|simpl in Hlen; lia].
  - destruct a as [|ch rest]; [reflexivity|]. simpl in Hlen.
    change (String ch rest ++ x)%string with (String ch (rest ++ x)%string).
    assert (Hrun : forall (p : ascii -> bool) (run r : string),
               p ch = true -> JS.forallb p run = true -> rest = (run ++ r)%string ->
               (forall l f, p l = true -> p f = true ->
                            is_number_char l && is_number_char f = true
                            \/ is_identifier_char l && is_identifier_char f = true) ->
               match r with EmptyString => True | String c _ => p c = false end ->
               JS.span p (rest ++ x) = (run, (r ++ x)%string)
               /\ Spec.separate r x = true).
    { intros p run r Hch Hall -> Hp Hr. destruct r as [|c r].
      - rewrite append_empty in Hsep. rewrite append_empty.
        split; [|now destruct x].
        apply span_app; [exact Hall|].
        destruct x as [|f x]; [exact I|].
        destruct (p f) eqn:Hpf; [exfalso|exact Hpf].
        destruct (last_char_run p ch run Hch Hall) as (l & Hl & Hpl).
        unfold Spec.separate in Hsep. rewrite Hl in Hsep. cbn [Spec.first_char] in Hsep.
        destruct (Hp l f Hpl Hpf) as [E|E]; rewrite E in Hsep;
          [discriminate|now rewrite andb_false_r in Hsep].
      - split.
        + rewrite string_app_assoc. now apply span_app.
        + unfold Spec.separate in *.
          change (String ch (run ++ String c r)) with (String ch run ++ String c r)%string in Hsep.
          now rewrite last_char_app in Hsep by discriminate. }
    destruct (is_number_char ch) eqn:Hn.
    + rewrite !(tokenize_loop_number ch _ _ Hn).
      pose proof (span_length is_number_char rest) as Hr.
      pose proof (span_spec is_number_char rest) as Hspan.
      destruct (JS.span is_number_char rest) as [run r]. simpl in Hr.
      destruct Hspan as (E & Hall & Hstop).
      destruct (Hrun is_number_char run r Hn Hall E) as [-> Hsep'];
        [intros l f Hl Hf; left; now rewrite Hl, Hf|exact Hstop|].
      destruct (number_token (String ch run)) as [t|m]; [|reflexivity].
      apply IH; [lia|exact Hsep'].
    + destruct (JS.is_letter ch) eqn:Hl.
      * rewrite !(tokenize_loop_identifier ch _ _ Hn Hl).
        pose proof (span_length is_identifier_char rest) as Hr.
        pose proof (span_spec is_identifier_char rest) as Hspan.
        destruct (JS.span is_identifier_char rest) as [run r]. simpl in Hr.
        destruct Hspan as (E & Hall & Hstop).
        assert (Hid : is_identifier_char ch = true)
          by (unfold is_identifier_char; now rewrite Hl).
        destruct (Hrun is_identifier_char run r Hid Hall E) as [-> Hsep'];
          [intros l f Hl' Hf; right; now rewrite Hl', Hf|exact Hstop|].
        destruct (identifier_token (String ch run)) as [t|m]; [|reflexivity].
        apply IH; [lia|exact Hsep'].
      * cbn [tokenize_loop]. rewrite Hn, Hl.
        assert (Hsep' : Spec.separate rest x = true).
        { destruct rest as [|c rest]; [now destruct x|exact Hsep]. }
        destruct (is_paren_char ch); [apply IH; [lia|exact Hsep']|].
        destruct (is_operator_char ch); [apply IH; [lia|exact Hsep']|reflexivity].
Qed.

(** A run of digits and dots with at most one dot is one number token
    wherever it stands: after a text that does not end with a digit or a
    dot, nor with a letter before a digit, and before one that does not
    start with a digit or a dot. *)
Lemma tokenize_number_between (before run after : string) :
  run <> "" ->
  JS.forallb is_number_char run = true ->
  JS.count (fun c => Ascii.eqb c ".") run <= 1 ->
  Spec.separate (Spec.clean before) run = true ->
  Spec.starts_number (Spec.clean after) = false ->
  tokenize (before ++ run ++ after)
  = let* b := tokenize before in
    let* a := tokenize after in
    Ok (b ++ {| type := number; value := run |} :: a).
Proof.
  intros Hne Hall Hdots Hleft Hright. unfold tokenize.
  rewrite !filter_app, (filter_number_chars run Hall).
  fold (Spec.clean before). fold (Spec.clean after).
  rewrite (tokenize_loop_app _ _ _ _ (le_n _)).
  - destruct (tokenize_loop (Spec.clean before) []) as [b|m]; cbn [bind]; [|reflexivity].
    rewrite (tokenize_loop_number_run run _ b Hne Hall Hdots Hright).
    rewrite (tokenize_loop_tokens _ _ _ (le_n _)).
    destruct (tokenize_loop (Spec.clean after) []) as [a|m]; cbn [bind]; [|reflexivity].
    now rewrite <- app_assoc.
  - unfold Spec.separate in *. destruct run; [congruence|exact Hleft].
Qed.

End Tokenizer.

(** ** The pipeline on expressions *)

Section Pipeline.

Import Parser.

Context `{host : JS.Host}.

Local Open Scope list_scope.

Lemma evaluate_throw (expr message : string) :
  Parser.evaluate expr = Throw message <-> Spec.pipeline_fails expr message.
Proof.
  unfold Parser.evaluate, Spec.pipeline_fails, bind. split.
  - destruct (tokenize expr) as [tokens|m]; [|intros [= ->]; now left].
    destruct (toRPN tokens) as [rpn|m] eqn:Erpn.
    + intros H. right. right. now exists tokens, rpn.
    + intros [= ->]. right. left. now exists tokens.
  - intros [H|[(tokens & Ht & Hr)|(tokens & rpn & Ht & Hr & He)]].
    + now rewrite H.
    + now rewrite Ht, Hr.
    + now rewrite Ht, Hr.
Qed.

Lemma pop_to_paren_none (ops output : list Token) :
  Spec.parens ops = 0 -> fst (fst (pop_to_paren ops output)) = false.
Proof.
  revert output. induction ops as [|top ops IH]; intros output; cbn [pop_to_paren].
  - reflexivity.
  - rewrite parens_cons. fold (Spec.is_paren top).
    destruct (Spec.is_paren top); [discriminate|]. cbn [andb]. apply IH.
Qed.

Lemma shunt_close_without_open (t : Token) (output ops : list Token) :
  Spec.closes t = true -> Spec.parens ops = 0 ->
  shunt t output ops = Throw "Mismatched parentheses".
Proof.
  unfold Spec.closes. intros Hc Hp. apply andb_prop in Hc as [Hparen Hv].
  apply is_paren_type in Hparen. apply negb_true_iff in Hv.
  unfold shunt. rewrite Hparen, Hv.
  pose proof (pop_to_paren_none ops output Hp) as Hnone.
  destruct (pop_to_paren ops output) as [[found ops'] output']. simpl in Hnone.
  now rewrite Hnone.
Qed.

End Pipeline.

(** * The claims *)

Section Claims.

Import Parser.

Local Open Scope list_scope.



(** The ways in which [eval_token t stack = Throw m] can hold, with those
    that throw another message than [m] put aside. *)
Ltac throw_cases H :=
  let Hm := fresh "Hm" in
  destruct (eval_token_throw _ _ _ H)
    as [[Ht [[Hm _]|(b & a & rest & -> & Ha & Hb & Hop)]]
       |[Ht [[Hm _]|(a & rest & -> & Ha & Hfn)]]];
  [ discriminate Hm
  | destruct (apply_op_throw _ _ _ _ Hop) as [(Hv & Hz & Hm)|[Hm _]];
    try discriminate Hm
  | discriminate Hm
  | destruct (apply_fn_throw _ _ _ Hfn)
      as [(Hv & Hz & Hm)|[(Hv & Hz & Hm)|[(Hv & Hz & Hm)|[Hm _]]]];
    try discriminate Hm ].

(** A function token whose guard is met throws. *)
Ltac guard_met Ht Ha Hv Hz :=
  unfold eval_token; rewrite Ht; cbn [pop]; rewrite Ha, Hv;
  unfold apply_fn; cbn; now rewrite Hz.

(** C2, refuted as stated.  ["sqrt(-1)"] and ["ln(-5)"] do not reach the
    domain guards: [-] is read as the binary operator, finds one operand
    and throws "Invalid expression", a failure of the EvalError kind. *)
Lemma minus_sign_is_not_a_domain_error :
  Parser.evaluate (host := Engine.host) "sqrt(-1)" = Throw "Invalid expression"
  /\ Parser.evaluate (host := Engine.host) "ln(-5)" = Throw "Invalid expression"
  /\ Spec.kind "Invalid expression" = Some Spec.EvalError.
Proof. repeat split. Qed.

(** C2, amended.  A turn of the evaluator throws "Division by zero" exactly
    when the token is the operator [/], both operands are there and the
    right one, popped first, is zero; it throws "Log domain error" or
    "Ln domain error" exactly when the token is the function [log] or
    [ln] and its operand is at most zero, and "Sqrt domain error" exactly
    when the token is [sqrt] and its operand is below zero; an operator on
    fewer than two operands throws "Invalid expression" and a function on
    none throws "Invalid function call".  [evaluateRPN] throws what its
    first failing turn throws, and "Invalid expression" when all turns
    pass and the stack does not hold exactly one value.  So ["5/0"] fails
    with "Division by zero" and ["log(0)"] with "Log domain error"; as
    there is no unary minus, ["sqrt(-1)"] and ["ln(-5)"] fail with
    "Invalid expression", and the guards are met by ["sqrt(0-1)"] and
    ["ln(0-5)"]. *)
Theorem evaluateRPN_failures (host : JS.Host) :
  (forall t stack,
      eval_token t stack = Throw "Division by zero" <->
      type t = op /\ value t = "/"
      /\ exists b a rest, stack = b :: a :: rest
           /\ JS.is_undefined a = false /\ JS.is_undefined b = false
           /\ JS.strict_eq_0 b = true)
  /\ (forall t stack,
        eval_token t stack = Throw "Log domain error" <->
        type t = fn /\ value t = "log"
        /\ exists a rest, stack = a :: rest /\ JS.is_undefined a = false
             /\ (JS.ToNumber a <=? 0)%float = true)
  /\ (forall t stack,
        eval_token t stack = Throw "Ln domain error" <->
        type t = fn /\ value t = "ln"
        /\ exists a rest, stack = a :: rest /\ JS.is_undefined a = false
             /\ (JS.ToNumber a <=? 0)%float = true)
  /\ (forall t stack,
        eval_token t stack = Throw "Sqrt domain error" <->
        type t = fn /\ value t = "sqrt"
        /\ exists a rest, stack = a :: rest /\ JS.is_undefined a = false
             /\ (JS.ToNumber a <? 0)%float = true)
  /\ (forall t stack,
        type t = op -> List.length stack < 2 ->
        eval_token t stack = Throw "Invalid expression")
  /\ (forall t, type t = fn -> eval_token t [] = Throw "Invalid function call")
  /\ (forall rpn,
        evaluateRPN rpn = Throw "Division by zero" <->
        exists pre post b a rest,
          rpn = pre ++ Spec.Op "/" :: post
          /\ eval_tokens pre [] = Ok (b :: a :: rest)
          /\ JS.is_undefined a = false /\ JS.is_undefined b = false
          /\ JS.strict_eq_0 b = true)
  /\ (forall rpn m,
        evaluateRPN rpn = Throw m <->
        (exists pre t post stack,
            rpn = pre ++ t :: post
            /\ eval_tokens pre [] = Ok stack
            /\ eval_token t stack = Throw m)
        \/ (exists stack,
              eval_tokens rpn [] = Ok stack
              /\ List.length stack <> 1
              /\ m = "Invalid expression"))
  /\ Parser.evaluate "5/0" = Throw "Division by zero"
  /\ Parser.evaluate "log(0)" = Throw "Log domain error"
  /\ Parser.evaluate "sqrt(-1)" = Throw "Invalid expression"
  /\ Parser.evaluate "ln(-5)" = Throw "Invalid expression"
  /\ Parser.evaluate "sqrt(0-1)" = Throw "Sqrt domain error"
  /\ Parser.evaluate "ln(0-5)" = Throw "Ln domain error".
Proof.
  split; [|split; [|split; [|split]]].
  - intros t stack. split.
    + intros H. throw_cases H. repeat split; auto. now exists b, a, rest.
    + intros (Ht & Hv & b & a & rest & -> & Ha & Hb & Hz).
      unfold eval_token. rewrite Ht. cbn [pop]. rewrite Ha, Hb, Hv. cbn [orb].
      unfold apply_op. cbn. now rewrite Hz.
  - intros t stack. split.
    + intros H. throw_cases H. repeat split; auto. now exists a, rest.
    + intros (Ht & Hv & a & rest & -> & Ha & Hz). guard_met Ht Ha Hv Hz.
  - intros t stack. split.
    + intros H. throw_cases H. repeat split; auto. now exists a, rest.
    + intros (Ht & Hv & a & rest & -> & Ha & Hz). guard_met Ht Ha Hv Hz.
  - intros t stack. split.
    + intros H. throw_cases H. repeat split; auto. now exists a, rest.
    + intros (Ht & Hv & a & rest & -> & Ha & Hz). guard_met Ht Ha Hv Hz.
  - split; [exact eval_token_op_underflow|].
    split; [exact eval_token_fn_underflow|].
    split; [|split; [exact evaluateRPN_throw|repeat split]].
    intros rpn. rewrite evaluateRPN_throw_turn by discriminate. split.
    + intros (pre & t & post & stack & -> & Hpre & H). throw_cases H.
      exists pre, post, b, a, rest. destruct t as [ty v]. simpl in Ht, Hv. subst ty v.
      auto.
    + intros (pre & post & b & a & rest & -> & Hpre & Ha & Hb & Hz).
      exists pre, (Spec.Op "/"), post, (b :: a :: rest).
      repeat split; auto. unfold eval_token. cbn. rewrite Ha, Hb. cbn.
      unfold apply_op. cbn. now rewrite Hz.
Qed.

Lemma evaluateRPN_failures_witness :
  JS.strict_eq_0 (JS.VNum 0) = true
  /\ eval_token (host := Engine.host) (Spec.Op "/") [JS.VNum 0; JS.VNum 5]
     = Throw "Division by zero".
Proof.
  split; [reflexivity|].
  apply (proj1 (evaluateRPN_failures Engine.host)).
  repeat split. exists (JS.VNum 0), (JS.VNum 5), []. repeat split.
Defined.

(** C3.  When one of the three stages of the pipeline throws, [evaluate]
    leaves [input] as it was and calls the display callback once more,
    with "Error: " followed by the message thrown; a [backspace] after it
    removes the last character of the expression.  With ["5/0"] in the
    buffer the callback receives "Error: Division by zero", the buffer is
    still ["5/0"], and [backspace] leaves ["5/"]. *)
Theorem evaluate_failure_keeps_input (host : JS.Host) :
  (forall (c : Calculator.state) (message : string),
      Spec.pipeline_fails (JS.or_default (Calculator.input c) "0") message ->
      Calculator.evaluate c
      = {| Calculator.input := Calculator.input c;
           Calculator.shown := Calculator.shown c ++ ["Error: " ++ message]%string |}
      /\ Calculator.input (Calculator.backspace (Calculator.evaluate c))
         = JS.slice_0_minus1 (Calculator.input c))
  /\ (forall shown : list string,
        Calculator.evaluate {| Calculator.input := "5/0"; Calculator.shown := shown |}
        = {| Calculator.input := "5/0";
             Calculator.shown := shown ++ ["Error: Division by zero"] |}
        /\ Calculator.backspace
             (Calculator.evaluate {| Calculator.input := "5/0"; Calculator.shown := shown |})
           = {| Calculator.input := "5/";
                Calculator.shown := shown ++ ["Error: Division by zero"; "5/"] |}).
Proof.
  split.
  - intros c message Hfail. apply evaluate_throw in Hfail.
    unfold Calculator.evaluate. rewrite Hfail. split; reflexivity.
  - intros shown.
    assert (E : Parser.evaluate "5/0" = Throw "Division by zero") by reflexivity.
    unfold Calculator.backspace, Calculator.evaluate.
    cbn [Calculator.input Calculator.shown JS.or_default]. rewrite E.
    unfold Calculator.onChange, Calculator.set_input. cbn.
    split; [reflexivity|]. now rewrite <- app_assoc.
Qed.

Lemma evaluate_failure_keeps_input_witness :
  Spec.pipeline_fails (host := Engine.host) "5/0" "Division by zero"
  /\ Calculator.evaluate (host := Engine.host)
       {| Calculator.input := "5/0"; Calculator.shown := [] |}
     = {| Calculator.input := "5/0"; Calculator.shown := ["Error: Division by zero"] |}.
Proof.
  assert (Hfail : Spec.pipeline_fails (host := Engine.host) "5/0" "Division by zero").
  { right. right. eexists. eexists. repeat split. }
  split; [exact Hfail|].
  exact (proj1 (proj1 (evaluate_failure_keeps_input Engine.host)
                  {| Calculator.input := "5/0"; Calculator.shown := [] |}
                  "Division by zero" Hfail)).
Defined.

(** C4, at the results 100 and 1e20.  [format] turns 100 into "1":
    [toPrecision(12)] gives "100.000000000", the first replacement leaves
    "100", and the second one removes the zeros of the integer as well.
    Read back, "1" is the number 1.  So ["10*10"] is displayed as "1".
    In the same way the last zero of an exponent is removed: 1e20, the
    result of ["100000000000*1000000000"], is displayed as
    "1.00000000000e+2".  (The result of ["1/3"] is formatted as
    "0.333333333333".) *)
Theorem format_strips_integer_zeros :
  JS.toPrecision 100 12 = "100.000000000"
  /\ Calculator.replace_fraction_zeros false false "100.000000000" = "100"
  /\ Calculator.replace_trailing_zeros "100" = "1"
  /\ Calculator.format 100 = "1"
  /\ JS.Number "1" = 1%float
  /\ (forall (host : JS.Host) (shown : list string),
        Parser.evaluate "10*10" = Ok (JS.VNum 100)
        /\ Calculator.evaluate {| Calculator.input := "10*10"; Calculator.shown := shown |}
           = {| Calculator.input := "1"; Calculator.shown := shown ++ ["1"] |})
  /\ JS.toPrecision 1e20 12 = "1.00000000000e+20"
  /\ Calculator.format 1e20 = "1.00000000000e+2"
  /\ (forall (host : JS.Host) (shown : list string),
        Parser.evaluate "100000000000*1000000000" = Ok (JS.VNum 1e20)
        /\ Calculator.evaluate
             {| Calculator.input := "100000000000*1000000000"; Calculator.shown := shown |}
           = {| Calculator.input := "1.00000000000e+2";
                Calculator.shown := shown ++ ["1.00000000000e+2"] |})
  /\ (forall host : JS.Host, Parser.evaluate "1/3" = Ok (JS.VNum (1 / 3)))
  /\ Calculator.format (1 / 3) = "0.333333333333".
Proof. repeat split. Qed.

(** C5.  [toRPN] throws "Mismatched parentheses" exactly when the
    parentheses of its input are not balanced, and throws nothing else: a
    closing parenthesis met while no open one is stacked throws, and so
    does an open one still stacked at the end.  ["(1+2"] and ["1+2)"]
    pass the tokenizer and fail in [toRPN]. *)
Theorem toRPN_mismatched_iff_unbalanced (host : JS.Host) :
  (forall tokens,
      toRPN tokens = Throw "Mismatched parentheses" <-> Spec.balanced tokens = false)
  /\ (forall tokens m, toRPN tokens = Throw m -> m = "Mismatched parentheses")
  /\ (forall t output ops,
        Spec.closes t = true -> Spec.parens ops = 0 ->
        shunt t output ops = Throw "Mismatched parentheses")
  /\ (forall ops output,
        Spec.parens ops <> 0 -> drain ops output = Throw "Mismatched parentheses")
  /\ (exists tokens, tokenize "(1+2" = Ok tokens
                     /\ toRPN tokens = Throw "Mismatched parentheses")
  /\ (exists tokens, tokenize "1+2)" = Ok tokens
                     /\ toRPN tokens = Throw "Mismatched parentheses")
  /\ Parser.evaluate "(1+2" = Throw "Mismatched parentheses"
  /\ Parser.evaluate "1+2)" = Throw "Mismatched parentheses".
Proof.
  split; [|split; [|split; [|split]]].
  - intros tokens. pose proof (toRPN_spec tokens) as H.
    destruct (toRPN tokens) as [output|m].
    + destruct H as [Hb _]. split; [discriminate|congruence].
    + destruct H as [-> Hb]. split; auto.
  - intros tokens m E. pose proof (toRPN_spec tokens) as H. rewrite E in H. apply H.
  - intros t output ops. apply shunt_close_without_open.
  - intros ops output Hp. pose proof (drain_spec ops output) as H.
    destruct (drain ops output) as [output'|m].
    + destruct H as [H _]. contradiction.
    + destruct H as [-> _]. reflexivity.
  - repeat split; eexists; split; reflexivity.
Qed.

Lemma toRPN_mismatched_iff_unbalanced_witness :
  Spec.balanced [Spec.Num "1"; Spec.Op "+"; Spec.Num "2"; Spec.Close] = false
  /\ toRPN (host := Engine.host) [Spec.Num "1"; Spec.Op "+"; Spec.Num "2"; Spec.Close]
     = Throw "Mismatched parentheses".
Proof.
  split; [reflexivity|].
  apply (proj1 (toRPN_mismatched_iff_unbalanced Engine.host)). reflexivity.
Defined.

(** C6, at the input ["toString"].  The identifier is neither a function
    name nor one of the constants [pi] and [e], yet [tokenize] returns a
    ['const'] token for it, because [id in CONSTANTS] also finds what the
    object literal inherits; so do the other inherited names made of
    letters.  The pipeline then returns the inherited member, and the
    calculator shows "Error".  (["foo(1)"] throws "Unknown identifier: foo",
    whatever [tokenize] throws is a lexical error, and the empty text gives
    no token.) *)
Theorem tokenize_accepts_inherited_names :
  tokenize "toString" = Ok [Spec.Const "toString"]
  /\ JS.has FUNCTIONS "toString" = false
  /\ JS.own CONSTANTS "toString" = None
  /\ List.Forall (fun id => tokenize id = Ok [Spec.Const id])
       ["constructor"; "hasOwnProperty"; "isPrototypeOf"; "propertyIsEnumerable";
        "toLocaleString"; "toString"; "valueOf"]
  /\ (forall host : JS.Host, Parser.evaluate "toString" = Ok (JS.VMember "toString"))
  /\ (forall (host : JS.Host) (shown : list string),
        Calculator.evaluate {| Calculator.input := "toString"; Calculator.shown := shown |}
        = {| Calculator.input := "Error"; Calculator.shown := shown ++ ["Error"] |})
  /\ tokenize "foo(1)" = Throw "Unknown identifier: foo"
  /\ (forall expr m, tokenize expr = Throw m -> Spec.kind m = Some Spec.LexError)
  /\ tokenize "" = Ok [].
Proof.
  repeat split; try exact tokenize_throws_lexical. repeat constructor.
Qed.

(** C7.  On tokens whose parentheses are balanced [toRPN] returns, and
    what it returns holds no ['paren'] token. *)
Theorem toRPN_output_has_no_parenthesis (host : JS.Host) (tokens : list Token) :
  Spec.balanced tokens = true ->
  exists output, toRPN tokens = Ok output /\ forall t, In t output -> type t <> paren.
Proof.
  intros Hb. pose proof (toRPN_spec tokens) as H.
  destruct (toRPN tokens) as [output|m].
  - destruct H as [_ Hn]. exists output. split; [reflexivity|].
    intros t Hin Ht. unfold Spec.no_paren in Hn.
    rewrite List.forallb_forall in Hn. specialize (Hn t Hin).
    apply negb_true_iff in Hn. apply is_paren_type in Ht. congruence.
  - destruct H as [_ H]. congruence.
Qed.

Lemma toRPN_output_has_no_parenthesis_witness :
  Spec.balanced
    [ Spec.Open; Spec.Num "2";
      Spec.Op "+"; Spec.Num "3";
      Spec.Close; Spec.Op "*";
      Spec.Num "4" ] = true
  /\ exists output,
       toRPN (host := Engine.host)
         [ Spec.Open; Spec.Num "2";
           Spec.Op "+"; Spec.Num "3";
           Spec.Close; Spec.Op "*";
           Spec.Num "4" ] = Ok output
       /\ forall t, In t output -> type t <> paren.
Proof.
  split; [reflexivity|].
  apply (toRPN_output_has_no_parenthesis Engine.host). reflexivity.
Defined.

(** C8, from any state.  After [clear()], [append("5")] and [backspace()]
    the buffer is empty, [evaluate()] runs the pipeline on "0" and gets
    the number 0, and [format] turns it into the empty string: the
    display callback receives "0", "5", "0" and then "", not "0". *)
Theorem empty_input_displays_empty_string (host : JS.Host) (c : Calculator.state) :
  Calculator.input (Calculator.backspace (Calculator.append "5" (Calculator.clear c))) = ""
  /\ JS.or_default "" "0" = "0"
  /\ Parser.evaluate "0" = Ok (JS.VNum 0)
  /\ JS.toPrecision 0 12 = "0.00000000000"
  /\ Calculator.format 0 = ""
  /\ Calculator.evaluate
       (Calculator.backspace (Calculator.append "5" (Calculator.clear c)))
     = {| Calculator.input := "";
          Calculator.shown := Calculator.shown c ++ ["0"; "5"; "0"; ""] |}.
Proof.
  repeat split. destruct c as [input shown].
  assert (Hclear : Calculator.clear {| Calculator.input := input; Calculator.shown := shown |}
                   = {| Calculator.input := ""; Calculator.shown := shown ++ ["0"] |})
    by reflexivity.
  assert (Happend : forall l, Calculator.append "5" {| Calculator.input := ""; Calculator.shown := l |}
                              = {| Calculator.input := "5"; Calculator.shown := l ++ ["5"] |})
    by reflexivity.
  assert (Hback : forall l, Calculator.backspace {| Calculator.input := "5"; Calculator.shown := l |}
                            = {| Calculator.input := ""; Calculator.shown := l ++ ["0"] |})
    by reflexivity.
  assert (Heval : forall l, Calculator.evaluate {| Calculator.input := ""; Calculator.shown := l |}
                            = {| Calculator.input := ""; Calculator.shown := l ++ [""] |})
    by reflexivity.
  rewrite Hclear, Happend, Hback, Heval. cbn [Calculator.shown].
  now rewrite <- !app_assoc.
Qed.

(** C9.  There is no unary minus: an operator token pops two operands
    whatever it is, and throws "Invalid expression" when the stack holds
    fewer; so does [evaluateRPN] on a sequence in which an operator comes
    after fewer than two operands.  ["-5"] is the operator and the number,
    its postfix form is [5 -], and evaluating it throws
    "Invalid expression". *)
Theorem operator_needs_two_operands (host : JS.Host) :
  (forall t stack,
      type t = op -> List.length stack < 2 ->
      eval_token t stack = Throw "Invalid expression")
  /\ (forall pre t post stack,
        eval_tokens pre [] = Ok stack -> type t = op -> List.length stack < 2 ->
        evaluateRPN (pre ++ t :: post) = Throw "Invalid expression")
  /\ tokenize "-5" = Ok [Spec.Op "-"; Spec.Num "5"]
  /\ toRPN [Spec.Op "-"; Spec.Num "5"]
     = Ok [Spec.Num "5"; Spec.Op "-"]
  /\ Parser.evaluate "-5" = Throw "Invalid expression".
Proof.
  split; [exact eval_token_op_underflow|]. split; [|repeat split].
  intros pre t post stack Hpre Ht Hlen. apply evaluateRPN_throw. left.
  exists pre, t, post, stack. repeat split; auto using eval_token_op_underflow.
Qed.

Lemma operator_needs_two_operands_witness :
  eval_tokens (host := Engine.host) [Spec.Num "5"] []
  = Ok [JS.VNum 5]
  /\ evaluateRPN (host := Engine.host)
       ([Spec.Num "5"] ++ Spec.Op "-" :: [])
     = Throw "Invalid expression".
Proof.
  split; [reflexivity|].
  apply (proj1 (proj2 (operator_needs_two_operands Engine.host))
           [Spec.Num "5"] (Spec.Op "-") []
           [JS.VNum 5]).
  - reflexivity.
  - reflexivity.
  - simpl. lia.
Defined.

(** C10.  A number token needs no digit.  Wherever the scan meets a digit
    or a dot it takes the longest run of digits and dots, and if the run
    has at most one dot it becomes one ['number'] token, with or without a
    digit in it.  This holds at that turn of the loop, whatever tokens were
    found before and whatever follows the run; hence for a run anywhere in
    a text: between a text that does not end with a digit or a dot, nor
    with a letter when the run starts with a digit (digits after a letter
    belong to the name), and a text that does not start with a digit or a
    dot, the tokens are those of the text before, the number, and those of
    the text after, and a failure is that of the text before or of the
    text after.  A text that is such a run as a whole is one token.
    [tokenize(".")] returns the single token ["."], [Number(".")] is [NaN],
    and the pipeline returns [NaN] for it. *)
Theorem tokenize_accepts_number_without_digit :
  (forall s : string,
      s <> "" ->
      JS.forallb is_number_char s = true ->
      JS.count (fun c => Ascii.eqb c ".") s <= 1 ->
      tokenize s = Ok [Spec.Num s])
  /\ (forall (run rest : string) (tokens : list Token),
        run <> "" ->
        JS.forallb is_number_char run = true ->
        JS.count (fun c => Ascii.eqb c ".") run <= 1 ->
        Spec.starts_number rest = false ->
        tokenize_loop (run ++ rest) tokens = tokenize_loop rest (tokens ++ [Spec.Num run]))
  /\ (forall before run after : string,
        run <> "" ->
        JS.forallb is_number_char run = true ->
        JS.count (fun c => Ascii.eqb c ".") run <= 1 ->
        Spec.separate (Spec.clean before) run = true ->
        Spec.starts_number (Spec.clean after) = false ->
        tokenize (before ++ run ++ after)
        = let* b := tokenize before in
          let* a := tokenize after in
          Ok (b ++ Spec.Num run :: a))
  /\ tokenize "." = Ok [Spec.Num "."]
  /\ JS.Number "." = nan
  /\ (forall host : JS.Host, Parser.evaluate "." = Ok (JS.VNum nan)).
Proof.
  split; [exact tokenize_number_run|].
  split; [exact tokenize_loop_number_run|].
  split; [exact tokenize_number_between|].
  repeat split.
Qed.

Lemma tokenize_accepts_number_without_digit_witness :
  JS.forallb is_number_char "." = true
  /\ JS.count (fun c => Ascii.eqb c ".") "." <= 1
  /\ Spec.separate (Spec.clean "2 * (") "." = true
  /\ Spec.starts_number (Spec.clean " + 1)") = false
  /\ tokenize "2 * (. + 1)"
     = Ok [Spec.Num "2"; Spec.Op "*"; Spec.Open; Spec.Num "."; Spec.Op "+"; Spec.Num "1";
           Spec.Close].
Proof.
  split; [reflexivity|]. split; [simpl; lia|]. split; [reflexivity|]. split; [reflexivity|].
  apply (proj1 (proj2 (proj2 tokenize_accepts_number_without_digit)) "2 * (" "." " + 1)").
  - discriminate.
  - reflexivity.
  - simpl. lia.
  - reflexivity.
  - reflexivity.
Defined.

End Claims.

(** * Further properties *)

(** ** toRPN: what becomes of the tokens *)

Section Shunting.

Import Parser Spec Expr.

Context `{host : JS.Host}.

Local Open Scope list_scope.

(** The operator loop moves the top of the stack to the output, in order. *)
Lemma pop_operators_moves (t : Token) (ops output : list Token) :
  exists moved ops',
    ops = moved ++ ops'
    /\ pop_operators t ops output = (ops', output ++ moved)
    /\ Forall (fun x => is_paren x = false /\ is_operand x = false) moved.
Proof.
  revert output. induction ops as [|top ops IH]; intros output; cbn [pop_operators].
  - exists [], []. simpl. rewrite app_nil_r. auto.
  - assert (Hmove : type top = fn \/ type top = op ->
                    exists moved ops',
                      top :: ops = moved ++ ops'
                      /\ pop_operators t ops (output ++ [top]) = (ops', output ++ moved)
                      /\ Forall (fun x => is_paren x = false /\ is_operand x = false) moved).
    { intros Htop. destruct (IH (output ++ [top])) as (moved & ops' & -> & E & Hall).
      exists (top :: moved), ops'. rewrite E, <- app_assoc.
      repeat split. constructor; [|exact Hall].
      unfold is_paren, is_operand. destruct Htop as [-> | ->]; auto. }
    assert (Hstop : exists moved ops',
               top :: ops = moved ++ ops'
               /\ (top :: ops, output) = (ops', output ++ moved)
               /\ Forall (fun x => is_paren x = false /\ is_operand x = false) moved).
    { exists [], (top :: ops). simpl. rewrite app_nil_r. auto. }
    destruct (type top) eqn:Etop; auto.
    destruct (yields top t); auto.
Qed.

(** The closing loop moves the top of the stack to the output up to the
    nearest open parenthesis, which it drops. *)
Lemma pop_to_paren_moves (ops output : list Token) :
  exists moved,
    Forall (fun x => opens x = false) moved
    /\ ((exists o ops', opens o = true /\ ops = moved ++ o :: ops'
                        /\ pop_to_paren ops output = (true, ops', output ++ moved))
        \/ (ops = moved /\ pop_to_paren ops output = (false, [], output ++ moved))).
Proof.
  revert output. induction ops as [|top ops IH]; intros output; cbn [pop_to_paren].
  - exists []. rewrite app_nil_r. auto.
  - fold (is_paren top). fold (opens top). destruct (opens top) eqn:Etop.
    + exists []. rewrite app_nil_r. split; [constructor|]. left. now exists top, ops.
    + destruct (IH (output ++ [top])) as (moved & Hall & H).
      exists (top :: moved). split; [now constructor|].
      rewrite <- app_assoc in H. cbn [app] in *.
      destruct H as [(o & ops' & Ho & -> & E)|[-> E]].
      * left. now exists o, ops'.
      * now right.
Qed.

(** The last loop moves the whole stack to the output. *)
Lemma drain_moves (ops output output' : list Token) :
  drain ops output = Ok output' ->
  output' = output ++ ops /\ Forall (fun x => is_paren x = false) ops.
Proof.
  revert output. induction ops as [|top ops IH]; intros output; cbn [drain].
  - intros [= <-]. now rewrite app_nil_r.
  - unfold is_paren at 1.
    destruct (type top) eqn:Etop; try discriminate;
      intros H; destruct (IH _ H) as [-> Hall]; rewrite <- app_assoc;
      (split; [reflexivity|]); constructor; auto; unfold is_paren; now rewrite Etop.
Qed.

(** What one turn of the loop does to the output and to the stack. *)
Lemma shunt_cases (t : Token) (output ops output' ops' : list Token) :
  shunt t output ops = Ok (output', ops') ->
  (is_operand t = true /\ output' = output ++ [t] /\ ops' = ops)
  \/ (type t = fn /\ output' = output /\ ops' = t :: ops)
  \/ (type t = op
      /\ exists moved rest,
           ops = moved ++ rest /\ output' = output ++ moved /\ ops' = t :: rest
           /\ Forall (fun x => is_paren x = false /\ is_operand x = false) moved)
  \/ (opens t = true /\ output' = output /\ ops' = t :: ops)
  \/ (closes t = true
      /\ exists moved o rest,
           opens o = true /\ Forall (fun x => opens x = false) moved
           /\ ops = moved ++ o :: rest
           /\ ((exists f, type f = fn /\ rest = f :: ops'
                          /\ output' = output ++ moved ++ [f])
               \/ (output' = output ++ moved /\ ops' = rest))).
Proof.
  unfold shunt, opens, closes, is_paren, is_operand.
  destruct (type t) eqn:Et; cbn [type_eqb andb].
  - intros [= <- <-]. auto.
  - destruct (pop_operators_moves t ops output) as (moved & rest & Hops & E & Hall).
    rewrite E. intros [= <- <-]. right. right. left. split; [reflexivity|].
    now exists moved, rest.
  - intros [= <- <-]. auto.
  - destruct (String.eqb (value t) "(") eqn:Ev; cbn [negb].
    + intros [= <- <-]. do 3 right. left. auto.
    + destruct (pop_to_paren_moves ops output)
        as (moved & Hall & [(o & rest & Ho & Hops & E)|[Hops E]]); rewrite E; cbn [negb].
      * intros H. do 4 right. split; [reflexivity|].
        exists moved, o, rest. repeat split; auto.
        destruct rest as [|f rest']; [injection H as <- <-; now right|].
        destruct (type f) eqn:Ef; injection H as <- <-; auto.
        left. exists f. rewrite <- app_assoc. auto.
      * discriminate.
  - intros [= <- <-]. auto.
Qed.

Lemma filter_none {A : Type} (p : A -> bool) (l : list A) :
  Forall (fun x => p x = false) l -> List.filter p l = [].
Proof.
  induction 1 as [|x l Hx _ IH]; simpl; [reflexivity|]. now rewrite Hx.
Qed.

Lemma filter_all {A : Type} (p : A -> bool) (l : list A) :
  Forall (fun x => p x = true) l -> List.filter p l = l.
Proof.
  induction 1 as [|x l Hx _ IH]; simpl; [reflexivity|]. now rewrite Hx, IH.
Qed.

Lemma open_only_app (l1 l2 : list Token) :
  open_only (l1 ++ l2) = open_only l1 && open_only l2.
Proof. apply List.forallb_app. Qed.

(** On a stack that holds open parentheses only, what is not an open
    parenthesis is no parenthesis. *)
Lemma open_only_not_opens (moved : list Token) :
  open_only moved = true -> Forall (fun x => opens x = false) moved ->
  Forall (fun x => negb (is_paren x) = true) moved.
Proof.
  intros Hopen Hall. induction Hall as [|x l Hx _ IH]; [constructor|].
  rewrite open_only_cons in Hopen. apply andb_prop in Hopen as [H1 H2].
  constructor; [|now apply IH]. rewrite Hx, orb_false_r in H1. exact H1.
Qed.

(** A turn keeps the tokens other than parentheses, between the output and
    the stack. *)
Lemma shunt_permutes (t : Token) (output ops output' ops' : list Token) :
  open_only ops = true ->
  shunt t output ops = Ok (output', ops') ->
  Permutation (output' ++ without_parens ops')
              (output ++ without_parens ops ++ without_parens [t]).
Proof.
  intros Hopen H. unfold without_parens.
  destruct (shunt_cases _ _ _ _ _ H)
    as [(Ht & -> & ->)
       |[(Ht & -> & ->)
        |[(Ht & moved & rest & -> & -> & -> & Hall)
         |[(Ht & -> & ->)
          |(Ht & moved & o & rest & Ho & Hall & -> & Hend)]]]].
  - assert (Hp : is_paren t = false)
      by (unfold is_paren, is_operand in *; destruct (type t); auto; discriminate).
    cbn [List.filter]. rewrite Hp. cbn [negb]. rewrite <- app_assoc.
    apply Permutation_app_head, Permutation_app_comm.
  - assert (Hp : is_paren t = false) by (unfold is_paren; now rewrite Ht).
    cbn [List.filter]. rewrite Hp. cbn [negb].
    apply Permutation_app_head. change (t :: ?l) with ([t] ++ l).
    apply Permutation_app_comm.
  - assert (Hp : is_paren t = false) by (unfold is_paren; now rewrite Ht).
    cbn [List.filter]. rewrite Hp. cbn [negb].
    rewrite List.filter_app, (filter_all _ moved), <- !app_assoc.
    + do 2 apply Permutation_app_head.
      change (t :: ?l) with ([t] ++ l). apply Permutation_app_comm.
    + eapply Forall_impl; [|exact Hall]. intros x [Hx _]. now rewrite Hx.
  - unfold opens in Ht. apply andb_prop in Ht as [Hp _].
    cbn [List.filter]. rewrite Hp. cbn [negb]. now rewrite app_nil_r.
  - unfold closes in Ht. apply andb_prop in Ht as [Hp _].
    rewrite open_only_app in Hopen. apply andb_prop in Hopen as [Hmoved Hrest].
    pose proof (open_only_not_opens moved Hmoved Hall) as Hnp.
    assert (Hop : is_paren o = true) by (unfold opens in Ho; now apply andb_prop in Ho).
    cbn [List.filter]. rewrite Hp. cbn [negb].
    rewrite List.filter_app, (filter_all _ moved Hnp). cbn [List.filter].
    rewrite Hop. cbn [negb]. rewrite !app_nil_r.
    destruct Hend as [(f & Hf & -> & ->)|[-> ->]].
    + assert (Hfp : is_paren f = false) by (unfold is_paren; now rewrite Hf).
      cbn [List.filter]. rewrite Hfp. cbn [negb]. rewrite <- !app_assoc. reflexivity.
    + now rewrite <- app_assoc.
Qed.

Lemma shunt_keeps_open_only (t : Token) (output ops output' ops' : list Token) :
  open_only ops = true ->
  shunt t output ops = Ok (output', ops') -> open_only ops' = true.
Proof.
  intros Hopen H. pose proof (shunt_spec t output ops Hopen) as Hspec.
  rewrite H in Hspec. apply Hspec.
Qed.

Lemma shunt_all_permutes (tokens output ops output' ops' : list Token) :
  open_only ops = true ->
  shunt_all tokens output ops = Ok (output', ops') ->
  Permutation (output' ++ without_parens ops')
              (output ++ without_parens ops ++ without_parens tokens).
Proof.
  revert output ops. induction tokens as [|t tokens IH]; intros output ops Hopen;
    cbn [shunt_all].
  - intros [= <- <-]. unfold without_parens. cbn [List.filter]. now rewrite app_nil_r.
  - destruct (shunt t output ops) as [[output1 ops1]|m] eqn:E; [|discriminate].
    intros H. apply IH in H; [|now apply (shunt_keeps_open_only _ _ _ _ _ Hopen E)].
    rewrite H. apply shunt_permutes in E; [|exact Hopen].
    rewrite app_assoc, E, <- !app_assoc.
    change (t :: tokens) with ([t] ++ tokens).
    unfold without_parens. now rewrite List.filter_app.
Qed.

(** A turn keeps the operands in the order they come, all in the output. *)
Lemma shunt_operands (t : Token) (output ops output' ops' : list Token) :
  operands ops = [] ->
  shunt t output ops = Ok (output', ops') ->
  operands ops' = [] /\ operands output' = operands output ++ operands [t].
Proof.
  unfold operands. intros Hops H.
  assert (Hmoved : forall moved rest,
             List.filter is_operand (moved ++ rest) = [] ->
             List.filter is_operand moved = [] /\ List.filter is_operand rest = []).
  { intros moved rest E. rewrite List.filter_app in E. now apply app_eq_nil in E. }
  destruct (shunt_cases _ _ _ _ _ H)
    as [(Ht & -> & ->)
       |[(Ht & -> & ->)
        |[(Ht & moved & rest & -> & -> & -> & Hall)
         |[(Ht & -> & ->)
          |(Ht & moved & o & rest & Ho & Hall & -> & Hend)]]]];
    rewrite ?List.filter_app; cbn [List.filter].
  - auto.
  - assert (Hp : is_operand t = false) by (unfold is_operand; now rewrite Ht).
    rewrite Hp, app_nil_r. auto.
  - assert (Hp : is_operand t = false) by (unfold is_operand; now rewrite Ht).
    destruct (Hmoved _ _ Hops) as [Hm Hr]. rewrite Hp, Hm, app_nil_r. auto.
  - assert (Hp : is_operand t = false).
    { unfold opens, is_paren, is_operand in *. destruct (type t); auto; discriminate. }
    rewrite Hp, app_nil_r. auto.
  - assert (Hp : is_operand t = false).
    { unfold closes, is_paren, is_operand in *. destruct (type t); auto; discriminate. }
    destruct (Hmoved _ _ Hops) as [Hm Hr]. rewrite Hp.
    change (o :: rest) with ([o] ++ rest) in Hr. destruct (Hmoved _ _ Hr) as [_ Hrest].
    destruct Hend as [(f & Hf & -> & ->)|[-> ->]].
    + assert (Hfp : is_operand f = false) by (unfold is_operand; now rewrite Hf).
      change (f :: ops') with ([f] ++ ops') in Hrest.
      destruct (Hmoved _ _ Hrest) as [_ Hops'].
      rewrite !List.filter_app. cbn [List.filter]. rewrite Hfp, Hm, !app_nil_r. auto.
    + rewrite List.filter_app, Hm, !app_nil_r. auto.
Qed.

Lemma shunt_all_operands (tokens output ops output' ops' : list Token) :
  operands ops = [] ->
  shunt_all tokens output ops = Ok (output', ops') ->
  operands ops' = [] /\ operands output' = operands output ++ operands tokens.
Proof.
  revert output ops. induction tokens as [|t tokens IH]; intros output ops Hops;
    cbn [shunt_all].
  - intros [= <- <-]. unfold operands at 4. cbn [List.filter]. now rewrite app_nil_r.
  - destruct (shunt t output ops) as [[output1 ops1]|m] eqn:E; [|discriminate].
    apply shunt_operands in E as [Hops1 Hout1]; [|exact Hops].
    intros H. apply IH in H as [Hops' Hout']; [|exact Hops1].
    split; [exact Hops'|]. rewrite Hout', Hout1, <- app_assoc.
    change (t :: tokens) with ([t] ++ tokens). unfold operands.
    now rewrite List.filter_app.
Qed.

Lemma toRPN_permutation (tokens output : list Token) :
  toRPN tokens = Ok output -> Permutation output (without_parens tokens).
Proof.
  unfold toRPN. intros H.
  destruct (shunt_all tokens [] []) as [[output1 ops1]|m] eqn:E; [|discriminate].
  apply shunt_all_permutes in E; [|reflexivity].
  apply drain_moves in H as [-> Hall].
  assert (Hnp : without_parens ops1 = ops1).
  { apply filter_all. eapply Forall_impl; [|exact Hall]. intros x Hx. now rewrite Hx. }
  rewrite Hnp in E. exact E.
Qed.

(** X1.  [toRPN] neither loses nor repeats a token: what it returns is a
    rearrangement of the tokens it was given, the parentheses left out; so
    it is shorter than its input by the number of parentheses. *)
Theorem toRPN_rearranges_tokens (tokens output : list Token) :
  toRPN tokens = Ok output ->
  Permutation output (without_parens tokens)
  /\ List.length output + parens tokens = List.length tokens.
Proof.
  intros H. apply toRPN_permutation in H as E.
  split; [exact E|].
  rewrite (Permutation_length E). unfold without_parens, parens.
  clear. induction tokens as [|t tokens IH]; [reflexivity|].
  cbn [List.filter List.length]. destruct (is_paren t); cbn [negb List.length]; lia.
Qed.

(** X2.  [toRPN] keeps the operands in the order of the input: the numbers
    and constants of its output are those of its input, one after the
    other as they were written. *)
Theorem toRPN_keeps_operand_order (tokens output : list Token) :
  toRPN tokens = Ok output -> operands output = operands tokens.
Proof.
  unfold toRPN. intros H.
  destruct (shunt_all tokens [] []) as [[output1 ops1]|m] eqn:E; [|discriminate].
  apply shunt_all_operands in E as [Hops Hout]; [|reflexivity].
  apply drain_moves in H as [-> _]. unfold operands in *.
  now rewrite List.filter_app, Hops, app_nil_r, Hout.
Qed.

(** *** Expressions *)

Lemma waits_stops (p : nat) (o : binop) (ops output : list Token) :
  waits p ops = true -> p <= level o ->
  pop_operators (operator_token o) ops output = (ops, output).
Proof.
  unfold waits. destruct ops as [|top ops]; [reflexivity|]. cbn [pop_operators].
  destruct (type top); try reflexivity; [|discriminate].
  intros Hall Hp. rewrite List.forallb_forall in Hall.
  assert (Hin : In o [Add; Sub; Mul; Div; Pow]) by (destruct o; simpl; auto 6).
  specialize (Hall o Hin). apply Nat.leb_le in Hp. rewrite Hp in Hall.
  cbn [negb orb] in Hall. apply negb_true_iff in Hall.
  now rewrite Hall.
Qed.

Lemma waits_no_function (p : nat) (top : Token) (ops : list Token) :
  waits p (top :: ops) = true -> type top <> fn.
Proof. unfold waits. intros H E. now rewrite E in H. Qed.

Lemma waits_above (p q : nat) (ops : list Token) :
  p <= q -> waits p ops = true -> waits q ops = true.
Proof.
  unfold waits. intros Hpq. destruct ops as [|top ops]; [reflexivity|].
  destruct (type top); auto.
  rewrite !List.forallb_forall. intros H o Hin. specialize (H o Hin).
  apply orb_prop in H as [H|H]; [|now rewrite H, orb_true_r].
  apply negb_true_iff, Nat.leb_gt in H.
  assert (Hq : (q <=? level o)%nat = false) by (apply Nat.leb_gt; lia).
  now rewrite Hq.
Qed.

(** An operator waits on the stack while its right operand is read. *)
Lemma waits_right_operand (o : binop) (ops : list Token) :
  waits (right_level o) (operator_token o :: ops) = true.
Proof. destruct o; reflexivity. Qed.

(** The operators left on the stack by a left operand yield to the operator
    that follows it. *)
Lemma yields_left_operand (o' o : binop) :
  left_level o <= level o' -> yields (operator_token o') (operator_token o) = true.
Proof. destruct o, o'; simpl; intros H; try lia; reflexivity. Qed.

Lemma pop_operators_pending (o : binop) (os : list binop) (ops output : list Token) :
  Forall (fun o' => left_level o <= level o') os ->
  (forall out, pop_operators (operator_token o) ops out = (ops, out)) ->
  pop_operators (operator_token o) (List.map operator_token os ++ ops) output
  = (ops, output ++ List.map operator_token os).
Proof.
  intros Hall Hstop. revert output.
  induction Hall as [|o' os Ho' _ IH]; intros output.
  - cbn [List.map app]. now rewrite app_nil_r.
  - cbn [List.map app pop_operators]. cbn [operator_token type].
    change {| type := op; value := symbol o' |} with (operator_token o').
    change {| type := op; value := symbol o |} with (operator_token o).
    rewrite (yields_left_operand o' o Ho'), IH, <- app_assoc. reflexivity.
Qed.

Lemma pop_to_paren_pending (os : list binop) (top : Token) (ops output : list Token) :
  opens top = true ->
  pop_to_paren (List.map operator_token os ++ top :: ops) output
  = (true, ops, output ++ List.map operator_token os).
Proof.
  intros Htop. revert output. induction os as [|o os IH]; intros output.
  - cbn [List.map app pop_to_paren]. fold (is_paren top). fold (opens top).
    now rewrite Htop, app_nil_r.
  - cbn [List.map app pop_to_paren operator_token type type_eqb andb].
    change {| type := op; value := symbol o |} with (operator_token o).
    rewrite IH, <- app_assoc. reflexivity.
Qed.

Lemma drain_pending (os : list binop) (output : list Token) :
  drain (List.map operator_token os) output = Ok (output ++ List.map operator_token os).
Proof.
  revert output. induction os as [|o os IH]; intros output.
  - cbn. now rewrite app_nil_r.
  - cbn [List.map drain operator_token type].
    change {| type := op; value := symbol o |} with (operator_token o).
    rewrite IH, <- app_assoc. reflexivity.
Qed.

(** Reading the tokens of an expression adds its postfix form to the output,
    but for the operators still waiting on the stack. *)
Lemma shunt_all_expression (e : expr) :
  forall (p : nat) (output ops rest : list Token),
    fits p e = true -> waits p ops = true ->
    exists os out,
      Forall (fun o => p <= level o) os
      /\ out ++ List.map operator_token os = output ++ postfix e
      /\ shunt_all (infix e ++ rest) output ops
         = shunt_all rest out (List.map operator_token os ++ ops).
Proof.
  induction e as [v|c|f arg IH|e IH|o l IHl r IHr]; intros p output ops rest Hfits Hwaits.
  - exists [], (output ++ [Num v]). cbn. rewrite app_nil_r. auto.
  - exists [], (output ++ [Const c]). cbn. rewrite app_nil_r. auto.
  - cbn [fits] in Hfits.
    destruct (IH 1 output (Open :: Fn f :: ops) (Close :: rest) Hfits eq_refl)
      as (os & out & _ & Hout & E).
    unfold Open, Close, Fn in E.
    exists [], (output ++ postfix (Call f arg)). split; [constructor|].
    split; [now rewrite app_nil_r|].
    cbn [infix app shunt_all shunt type value String.eqb Ascii.eqb Bool.eqb].
    rewrite <- app_assoc. cbn [app]. rewrite E.
    cbn [shunt_all shunt type value String.eqb Ascii.eqb Bool.eqb].
    rewrite pop_to_paren_pending by reflexivity.
    cbn [negb type postfix List.map app]. now rewrite Hout, <- app_assoc.
  - cbn [fits] in Hfits.
    destruct (IH 1 output (Open :: ops) (Close :: rest) Hfits eq_refl)
      as (os & out & _ & Hout & E).
    unfold Open, Close in E.
    exists [], (output ++ postfix (Group e)). split; [constructor|].
    split; [now rewrite app_nil_r|].
    cbn [infix app shunt_all shunt type value String.eqb Ascii.eqb Bool.eqb].
    rewrite <- app_assoc. cbn [app]. rewrite E.
    cbn [shunt_all shunt type value String.eqb Ascii.eqb Bool.eqb].
    rewrite pop_to_paren_pending by reflexivity.
    cbn [negb postfix List.map app]. rewrite Hout.
    destruct ops as [|top ops']; [reflexivity|].
    pose proof (waits_no_function p top ops' Hwaits) as Hfn.
    destruct (type top); try reflexivity. contradiction.
  - cbn [fits] in Hfits. apply andb_prop in Hfits as [Hfits Hr].
    apply andb_prop in Hfits as [Hp Hl]. apply Nat.leb_le in Hp.
    assert (Hlevels : level o <= left_level o /\ level o <= right_level o)
      by (destruct o; simpl; lia).
    destruct (IHl (left_level o) output ops (operator_token o :: infix r ++ rest) Hl)
      as (osl & outl & Hosl & Houtl & El); [apply (waits_above p); [lia|exact Hwaits]|].
    destruct (IHr (right_level o) (output ++ postfix l) (operator_token o :: ops) rest Hr
                (waits_right_operand o ops))
      as (osr & outr & Hosr & Houtr & Er).
    exists (osr ++ [o]), outr. split; [|split].
    + apply Forall_app. split.
      * eapply Forall_impl; [|exact Hosr]. intros o' Ho'. simpl in Ho'. lia.
      * constructor; [exact Hp|constructor].
    + rewrite List.map_app, app_assoc, Houtr. cbn [List.map postfix].
      now rewrite <- !app_assoc.
    + cbn [infix]. rewrite <- app_assoc. cbn [app].
      change {| type := op; value := symbol o |} with (operator_token o).
      rewrite El. cbn [shunt_all shunt operator_token type].
      change {| type := op; value := symbol o |} with (operator_token o).
      rewrite (pop_operators_pending o osl ops outl Hosl).
      * rewrite Houtl, Er, List.map_app, <- app_assoc. reflexivity.
      * intros out'. apply (waits_stops p); [exact Hwaits|exact Hp].
Qed.

(** X3.  [toRPN] turns the tokens of an expression into its postfix form:
    for every expression tree in which operations stand without parentheses
    only where precedence and associativity allow it ([*] and [/] bind
    tighter than [+] and [-], [^] tighter still; [+ - * /] group to the
    left and [^] to the right), the tokens as written give the tokens in
    postfix order. *)
Theorem toRPN_expression (e : expr) :
  fits 1 e = true -> toRPN (infix e) = Ok (postfix e).
Proof.
  intros Hfits.
  destruct (shunt_all_expression e 1 [] [] [] Hfits eq_refl) as (os & out & _ & Hout & E).
  unfold toRPN. rewrite app_nil_r in E. rewrite E. cbn [shunt_all].
  rewrite app_nil_r, drain_pending. now rewrite Hout.
Qed.

End Shunting.

Section ShuntingExamples.

Import Parser Spec Expr.

Local Open Scope list_scope.

Lemma toRPN_rearranges_tokens_witness :
  toRPN (host := Engine.host) [Open; Num "2"; Op "+"; Num "3"; Close; Op "*"; Num "4"]
  = Ok [Num "2"; Num "3"; Op "+"; Num "4"; Op "*"]
  /\ Permutation [Num "2"; Num "3"; Op "+"; Num "4"; Op "*"]
       (without_parens [Open; Num "2"; Op "+"; Num "3"; Close; Op "*"; Num "4"]).
Proof.
  split; [reflexivity|].
  apply (toRPN_rearranges_tokens (host := Engine.host)
           [Open; Num "2"; Op "+"; Num "3"; Close; Op "*"; Num "4"]).
  reflexivity.
Defined.

Lemma toRPN_keeps_operand_order_witness :
  toRPN (host := Engine.host) [Num "8"; Op "-"; Num "3"; Op "*"; Const "pi"]
  = Ok [Num "8"; Num "3"; Const "pi"; Op "*"; Op "-"]
  /\ operands [Num "8"; Num "3"; Const "pi"; Op "*"; Op "-"]
     = operands [Num "8"; Op "-"; Num "3"; Op "*"; Const "pi"].
Proof.
  split; [reflexivity|].
  apply (toRPN_keeps_operand_order (host := Engine.host) [Num "8"; Op "-"; Num "3"; Op "*"; Const "pi"]).
  reflexivity.
Defined.

Lemma toRPN_expression_witness :
  fits 1 (Bin Add (Lit "2") (Bin Mul (Lit "3") (Bin Pow (Lit "4") (Call "sqrt" (Name "pi")))))
  = true
  /\ toRPN (host := Engine.host)
       [Num "2"; Op "+"; Num "3"; Op "*"; Num "4"; Op "^"; Fn "sqrt"; Open; Const "pi"; Close]
     = Ok [Num "2"; Num "3"; Num "4"; Const "pi"; Fn "sqrt"; Op "^"; Op "*"; Op "+"].
Proof.
  split; [reflexivity|].
  apply (toRPN_expression (host := Engine.host)
           (Bin Add (Lit "2") (Bin Mul (Lit "3") (Bin Pow (Lit "4") (Call "sqrt" (Name "pi")))))).
  reflexivity.
Defined.

End ShuntingExamples.

(** ** evaluateRPN: the value stack *)

Section Stack.

Import Parser Spec Expr.

Context `{host : JS.Host}.

Local Open Scope list_scope.

(** Evaluating the postfix form of an expression pushes its value. *)
Lemma eval_tokens_postfix (e : expr) (stack : list JS.value) :
  eval_tokens (postfix e) stack
  = match value_of e with
    | Ok v => Ok (v :: stack)
    | Throw m => Throw m
    end.
Proof.
  revert stack. induction e as [v|c|f arg IH|e IH|o l IHl r IHr]; intros stack;
    cbn [postfix value_of].
  - reflexivity.
  - reflexivity.
  - rewrite eval_tokens_app, IH. unfold bind.
    destruct (value_of arg) as [a|m]; [|reflexivity].
    cbn [eval_tokens eval_token type value pop].
    destruct (JS.is_undefined a); [reflexivity|].
    now destruct (apply_fn f a).
  - apply IH.
  - rewrite eval_tokens_app, IHl. unfold bind.
    destruct (value_of l) as [a|m]; [|reflexivity].
    rewrite eval_tokens_app, IHr.
    destruct (value_of r) as [b|m]; [|reflexivity].
    cbn [eval_tokens eval_token type value pop].
    destruct (JS.is_undefined a || JS.is_undefined b); [reflexivity|].
    now destruct (apply_op (symbol o) a b).
Qed.

(** X4.  [evaluateRPN] on the postfix form of an expression gives the value
    of the expression: its operands are evaluated from left to right, each
    operator is applied to the values of its two operands and each function
    to the value of its argument, and the first failure met in that order
    is the failure of the whole. *)
Theorem evaluateRPN_postfix (e : expr) : evaluateRPN (postfix e) = value_of e.
Proof.
  unfold evaluateRPN. rewrite eval_tokens_postfix. now destruct (value_of e).
Qed.

(** A turn that passes pushes an operand, replaces two values by one for an
    operator, and keeps the height of the stack otherwise. *)
Lemma eval_token_height (t : Token) (stack stack' : list JS.value) :
  eval_token t stack = Ok stack' ->
  List.length stack' + (if is_operator t then 1 else 0)
  = List.length stack + (if is_operand t then 1 else 0).
Proof.
  unfold eval_token, is_operator, is_operand.
  destruct (type t); cbn [type_eqb].
  - intros [= <-]. simpl. lia.
  - destruct stack as [|b [|a rest]]; cbn [pop]; try discriminate.
    destruct (JS.is_undefined a || JS.is_undefined b); [discriminate|].
    destruct (apply_op (value t) a b); [|discriminate].
    intros [= <-]. simpl. lia.
  - destruct stack as [|a rest]; cbn [pop]; try discriminate.
    destruct (JS.is_undefined a); [discriminate|].
    destruct (apply_fn (value t) a); [|discriminate].
    intros [= <-]. simpl. lia.
  - intros [= <-]. lia.
  - intros [= <-]. simpl. lia.
Qed.

Lemma eval_tokens_height (rpn : list Token) (stack stack' : list JS.value) :
  eval_tokens rpn stack = Ok stack' ->
  List.length stack' + List.length (List.filter is_operator rpn)
  = List.length stack + List.length (operands rpn).
Proof.
  revert stack. induction rpn as [|t rpn IH]; intros stack; cbn [eval_tokens].
  - intros [= <-]. reflexivity.
  - destruct (eval_token t stack) as [stack1|m] eqn:E; [|discriminate].
    intros H. apply IH in H. apply eval_token_height in E.
    unfold operands in *. cbn [List.filter].
    destruct (is_operator t), (is_operand t); cbn [List.length]; lia.
Qed.

(** X5.  [evaluateRPN] returns a value only for a sequence that holds one
    operand (number or constant) more than it holds operators. *)
Theorem evaluateRPN_counts_operands (rpn : list Token) (v : JS.value) :
  evaluateRPN rpn = Ok v ->
  List.length (operands rpn) = S (List.length (List.filter is_operator rpn)).
Proof.
  unfold evaluateRPN.
  destruct (eval_tokens rpn []) as [stack|m] eqn:E; [|discriminate].
  apply eval_tokens_height in E.
  destruct stack as [|w [|w' stack]]; try discriminate. intros _. simpl in E. lia.
Qed.

Lemma eval_tokens_skips_parentheses (rpn : list Token) (stack : list JS.value) :
  eval_tokens (without_parens rpn) stack = eval_tokens rpn stack.
Proof.
  revert stack. induction rpn as [|t rpn IH]; intros stack; [reflexivity|].
  unfold without_parens in *. cbn [List.filter eval_tokens].
  destruct (is_paren t) eqn:Ep; cbn [negb].
  - apply is_paren_type in Ep. unfold eval_token. rewrite Ep. apply IH.
  - cbn [eval_tokens]. destruct (eval_token t stack); [apply IH|reflexivity].
Qed.

(** X6.  [evaluateRPN] passes over parenthesis tokens: taking them out of a
    sequence changes neither its value nor its failure. *)
Theorem evaluateRPN_skips_parentheses (rpn : list Token) :
  evaluateRPN (without_parens rpn) = evaluateRPN rpn.
Proof. unfold evaluateRPN. now rewrite eval_tokens_skips_parentheses. Qed.

End Stack.

Section StackExamples.

Import Parser Spec Expr.

Local Open Scope list_scope.

Lemma evaluateRPN_counts_operands_witness :
  evaluateRPN (host := Engine.host) [Num "8"; Num "3"; Op "-"; Fn "sqrt"; Num "2"; Op "*"]
  = Ok (JS.VNum (PrimFloat.sqrt 5 * 2))
  /\ List.length (operands [Num "8"; Num "3"; Op "-"; Fn "sqrt"; Num "2"; Op "*"])
     = S (List.length
            (List.filter is_operator [Num "8"; Num "3"; Op "-"; Fn "sqrt"; Num "2"; Op "*"])).
Proof.
  split; [reflexivity|].
  apply (evaluateRPN_counts_operands (host := Engine.host)
           [Num "8"; Num "3"; Op "-"; Fn "sqrt"; Num "2"; Op "*"]
           (JS.VNum (PrimFloat.sqrt 5 * 2))).
  reflexivity.
Defined.

End StackExamples.

(** ** tokenize: the tokens and the text *)

Section Lexing.

Import Parser Spec Expr.

Local Open Scope list_scope.

Ltac by_character c H :=
  destruct c as [[] [] [] [] [] [] [] []]; intros H; (reflexivity || discriminate H).

Lemma letter_is_no_number_char (c : ascii) :
  JS.is_letter c = true -> is_number_char c = false.
Proof. by_character c H. Qed.

Lemma identifier_char_is_no_space (c : ascii) :
  is_identifier_char c = true -> JS.is_space c = false.
Proof. by_character c H. Qed.

Lemma paren_char_cases (c : ascii) :
  is_paren_char c = true -> c = "("%char \/ c = ")"%char.
Proof.
  unfold is_paren_char. intros H. apply orb_prop in H as [H|H];
    apply Ascii.eqb_eq in H; auto.
Qed.

Lemma operator_char_cases (c : ascii) :
  is_operator_char c = true -> exists o, JS.str c = symbol o.
Proof.
  unfold is_operator_char. intros H.
  repeat (apply orb_prop in H as [H|H]); apply Ascii.eqb_eq in H; subst c;
    [exists Add|exists Sub|exists Mul|exists Div|exists Pow]; reflexivity.
Qed.

Lemma number_token_ok (num : string) (t : Token) :
  number_token num = Ok t ->
  t = Num num /\ (JS.count (fun c => Ascii.eqb c ".") num <=? 1)%nat = true.
Proof.
  unfold number_token. rewrite split_length.
  destruct (Nat.ltb_spec 2 (S (JS.count (fun c => Ascii.eqb c ".") num)));
    [discriminate|].
  intros [= <-]. split; [reflexivity|]. apply Nat.leb_le. lia.
Qed.

Lemma identifier_token_ok (id : string) (t : Token) :
  identifier_token id = Ok t ->
  (t = Fn id /\ JS.has FUNCTIONS id = true)
  \/ (t = Const id /\ JS.has FUNCTIONS id = false /\ JS.in_ id CONSTANTS = true).
Proof.
  unfold identifier_token. destruct (JS.has FUNCTIONS id); [intros [= <-]; auto|].
  destruct (JS.in_ id CONSTANTS); [intros [= <-]; auto|discriminate].
Qed.

(** The tokens the loop adds are lexemes, and their texts put end to end are
    the text it read. *)
Lemma tokenize_loop_ok (n : nat) :
  forall (cleaned : string) (tokens out : list Token),
    String.length cleaned <= n ->
    tokenize_loop cleaned tokens = Ok out ->
    exists new,
      out = tokens ++ new
      /\ text_of new = cleaned
      /\ Forall (fun t => is_lexeme t = true) new.
Proof.
  induction n as [|n IH]; intros cleaned tokens out Hlen.
  - destruct cleaned; [|simpl in Hlen; lia].
    intros [= <-]. exists []. rewrite app_nil_r. auto.
  - destruct cleaned as [|ch rest].
    { intros [= <-]. exists []. rewrite app_nil_r. auto. }
    simpl in Hlen.
    assert (Hnext : forall (t : Token) (r : string),
               String.length r <= n -> is_lexeme t = true ->
               (value t ++ r)%string = String ch rest ->
               tokenize_loop r (tokens ++ [t]) = Ok out ->
               exists new,
                 out = tokens ++ new /\ text_of new = String ch rest
                 /\ Forall (fun t => is_lexeme t = true) new).
    { intros t r Hr Ht Htext H. destruct (IH _ _ _ Hr H) as (new & -> & <- & Hall).
      exists (t :: new). rewrite <- app_assoc. cbn [app text_of]. auto. }
    destruct (is_number_char ch) eqn:Hn.
    + rewrite (tokenize_loop_number ch rest tokens Hn).
      pose proof (span_length is_number_char rest) as Hr.
      pose proof (span_spec is_number_char rest) as Hspan.
      destruct (JS.span is_number_char rest) as [run r]. simpl in Hr.
      destruct Hspan as (-> & Hrun & _).
      destruct (number_token (String ch run)) as [t|m] eqn:Et; [|discriminate].
      apply number_token_ok in Et as [-> Hdots].
      apply Hnext; [lia| |reflexivity].
      unfold is_lexeme, is_literal. cbn [Num type value JS.is_empty negb JS.forallb andb].
      now rewrite Hn, Hrun, Hdots.
    + destruct (JS.is_letter ch) eqn:Hl.
      * rewrite (tokenize_loop_identifier ch rest tokens Hn Hl).
        pose proof (span_length is_identifier_char rest) as Hr.
        pose proof (span_spec is_identifier_char rest) as Hspan.
        destruct (JS.span is_identifier_char rest) as [run r]. simpl in Hr.
        destruct Hspan as (-> & Hrun & _).
        destruct (identifier_token (String ch run)) as [t|m] eqn:Et; [|discriminate].
        apply identifier_token_ok in Et as [[-> Hf]|(-> & Hf & Hc)];
          (apply Hnext; [lia| |reflexivity]);
          unfold is_lexeme, is_identifier; cbn [Fn Const type value].
        -- exact Hf.
        -- now rewrite Hl, Hrun, Hf, Hc.
      * cbn [tokenize_loop]. rewrite Hn, Hl.
        destruct (is_paren_char ch) eqn:Hp.
        -- apply Hnext; [lia| |reflexivity].
           destruct (paren_char_cases ch Hp) as [-> | ->]; reflexivity.
        -- destruct (is_operator_char ch) eqn:Ho; [|discriminate].
           apply Hnext; [lia| |reflexivity].
           destruct (operator_char_cases ch Ho) as [o Eo].
           unfold is_lexeme. cbn [type value]. rewrite Eo. now destruct o.
Qed.

(** X7.  Tokenizing loses nothing of the text but its white space: the texts
    of the tokens [tokenize] returns, put end to end, are the expression
    without its white space. *)
Theorem tokenize_text (expr : string) (tokens : list Token) :
  tokenize expr = Ok tokens ->
  text_of tokens = JS.filter (fun c => negb (JS.is_space c)) expr.
Proof.
  unfold tokenize. intros H.
  destruct (tokenize_loop_ok _ _ _ _ (le_n _) H) as (new & -> & Htext & _).
  exact Htext.
Qed.

(** X8.  Every token [tokenize] returns is well formed for its type: a
    ['number'] is a non-empty run of digits and dots with at most one dot,
    an ['op'] is one of [+ - * / ^], a ['paren'] is [(] or [)], a ['fn'] is a
    name of [FUNCTIONS], and a ['const'] is an identifier, not a function
    name, that [CONSTANTS] has or inherits. *)
Theorem tokenize_lexemes (expr : string) (tokens : list Token) :
  tokenize expr = Ok tokens -> Forall (fun t => is_lexeme t = true) tokens.
Proof.
  unfold tokenize. intros H.
  destruct (tokenize_loop_ok _ _ _ _ (le_n _) H) as (new & -> & _ & Hall).
  exact Hall.
Qed.

Lemma filter_spaces (w : string) :
  JS.forallb JS.is_space w = true -> JS.filter (fun c => negb (JS.is_space c)) w = "".
Proof.
  induction w as [|c w IH]; cbn; [reflexivity|].
  intros H. apply andb_prop in H as [Hc Hw]. rewrite Hc. cbn. now apply IH.
Qed.

(** X9.  White space never separates tokens: it is taken out before the
    scan, so a text reads the same with white space put anywhere in it, even
    inside a number or a name. *)
Theorem tokenize_ignores_spaces (a w b : string) :
  JS.forallb JS.is_space w = true ->
  tokenize (a ++ w ++ b) = tokenize (a ++ b).
Proof.
  intros Hw. unfold tokenize. now rewrite !filter_app, (filter_spaces w Hw).
Qed.

End Lexing.

Section LexingExamples.

Import Parser Spec Expr.

Local Open Scope list_scope.

Lemma tokenize_text_witness :
  tokenize " 12.5 * sin( pi )" = Ok [Num "12.5"; Op "*"; Fn "sin"; Open; Const "pi"; Close]
  /\ text_of [Num "12.5"; Op "*"; Fn "sin"; Open; Const "pi"; Close] = "12.5*sin(pi)".
Proof.
  split; [reflexivity|].
  apply (tokenize_text " 12.5 * sin( pi )"). reflexivity.
Defined.

Lemma tokenize_lexemes_witness :
  tokenize "e^(2.5-x)/3" = Throw "Unknown identifier: x"
  /\ tokenize "e^(2.5-ln(7))/3"
     = Ok [Const "e"; Op "^"; Open; Num "2.5"; Op "-"; Fn "ln"; Open; Num "7"; Close; Close;
           Op "/"; Num "3"]
  /\ Forall (fun t => is_lexeme t = true)
       [Const "e"; Op "^"; Open; Num "2.5"; Op "-"; Fn "ln"; Open; Num "7"; Close; Close;
        Op "/"; Num "3"].
Proof.
  split; [reflexivity|]. split; [reflexivity|].
  apply (tokenize_lexemes "e^(2.5-ln(7))/3"). reflexivity.
Defined.

Lemma tokenize_ignores_spaces_witness :
  JS.forallb JS.is_space " " = true
  /\ tokenize "1 2" = tokenize "12"
  /\ tokenize "12" = Ok [Num "12"].
Proof.
  split; [reflexivity|]. split; [|reflexivity].
  apply (tokenize_ignores_spaces "1" " " "2"). reflexivity.
Defined.

End LexingExamples.

(** ** Parser.evaluate: the three stages together *)

Section Whole.

Import Parser Spec Expr.

Context `{host : JS.Host}.

Local Open Scope list_scope.

Lemma literal_cases (v : string) :
  is_literal v = true ->
  exists ch run,
    v = String ch run /\ is_number_char ch = true
    /\ JS.forallb is_number_char run = true
    /\ number_token v = Ok (Num v).
Proof.
  unfold is_literal. intros H. apply andb_prop in H as [H Hdots].
  apply andb_prop in H as [Hne Hall]. destruct v as [|ch run]; [discriminate|].
  cbn in Hall. apply andb_prop in Hall as [Hch Hrun].
  exists ch, run. repeat split; auto.
  unfold number_token. rewrite split_length. apply Nat.leb_le in Hdots.
  destruct (Nat.ltb_spec 2 (S (JS.count (fun c => Ascii.eqb c ".") (String ch run))));
    [lia|reflexivity].
Qed.

Lemma function_name_is_identifier (f : string) :
  JS.has FUNCTIONS f = true -> is_identifier f = true.
Proof.
  cbn. intros H.
  repeat (apply orb_prop in H as [H|H]; [apply String.eqb_eq in H; now subst f|]).
  discriminate.
Qed.

Lemma delimited_stops (rest : string) :
  delimited rest = true ->
  match rest with
  | EmptyString => True
  | String c _ => is_number_char c = false
  end
  /\ match rest with
     | EmptyString => True
     | String c _ => is_identifier_char c = false
     end.
Proof.
  destruct rest as [|c rest]; cbn; [auto|]. intros H. apply andb_prop in H as [H1 H2].
  now apply negb_true_iff in H1, H2.
Qed.

(** An identifier followed by a delimiter is read as one identifier. *)
Lemma tokenize_loop_name (id rest : string) (tokens : list Token) :
  is_identifier id = true -> delimited rest = true ->
  tokenize_loop (id ++ rest) tokens
  = match identifier_token id with
    | Ok t => tokenize_loop rest (tokens ++ [t])
    | Throw m => Throw m
    end.
Proof.
  intros Hid Hrest. destruct id as [|ch run]; [discriminate|].
  cbn in Hid. apply andb_prop in Hid as [Hch Hrun].
  cbn [String.append].
  rewrite (tokenize_loop_identifier ch _ tokens (letter_is_no_number_char ch Hch) Hch).
  now rewrite (span_app _ _ _ Hrun (proj2 (delimited_stops rest Hrest))).
Qed.

Lemma tokenize_loop_symbol (o : binop) (rest : string) (tokens : list Token) :
  tokenize_loop (symbol o ++ rest) tokens = tokenize_loop rest (tokens ++ [operator_token o]).
Proof. now destruct o. Qed.

Lemma tokenize_loop_open (rest : string) (tokens : list Token) :
  tokenize_loop ("(" ++ rest) tokens = tokenize_loop rest (tokens ++ [Open]).
Proof. reflexivity. Qed.

Lemma tokenize_loop_close (rest : string) (tokens : list Token) :
  tokenize_loop (")" ++ rest) tokens = tokenize_loop rest (tokens ++ [Close]).
Proof. reflexivity. Qed.

(** The text of a well formed expression is read as its tokens. *)
Lemma tokenize_loop_render (e : expr) :
  forall (rest : string) (tokens : list Token),
    well_formed e = true -> delimited rest = true ->
    tokenize_loop (render e ++ rest) tokens = tokenize_loop rest (tokens ++ infix e).
Proof.
  induction e as [v|c|f arg IH|e IH|o l IHl r IHr]; intros rest tokens Hwf Hrest;
    cbn [well_formed render infix] in *.
  - destruct (literal_cases v Hwf) as (ch & run & -> & Hch & Hrun & Htoken).
    cbn [String.append]. rewrite (tokenize_loop_number ch _ tokens Hch).
    now rewrite (span_app _ _ _ Hrun (proj1 (delimited_stops rest Hrest))), Htoken.
  - apply andb_prop in Hwf as [Hwf Hin]. apply andb_prop in Hwf as [Hid Hf].
    apply negb_true_iff in Hf.
    rewrite (tokenize_loop_name c rest tokens Hid Hrest).
    unfold identifier_token. now rewrite Hf, Hin.
  - apply andb_prop in Hwf as [Hf Hwf].
    rewrite !string_app_assoc.
    rewrite (tokenize_loop_name f ("(" ++ render arg ++ ")" ++ rest)%string tokens
               (function_name_is_identifier f Hf) eq_refl).
    unfold identifier_token. rewrite Hf.
    rewrite tokenize_loop_open, (IH (")" ++ rest)%string _ Hwf eq_refl),
      tokenize_loop_close.
    f_equal. rewrite <- !app_assoc. reflexivity.
  - rewrite !string_app_assoc.
    rewrite tokenize_loop_open, (IH (")" ++ rest)%string _ Hwf eq_refl),
      tokenize_loop_close.
    f_equal. rewrite <- !app_assoc. reflexivity.
  - apply andb_prop in Hwf as [Hl Hr].
    rewrite !string_app_assoc.
    rewrite (IHl _ _ Hl) by now destruct o.
    rewrite tokenize_loop_symbol, (IHr _ _ Hr Hrest).
    f_equal. rewrite <- !app_assoc. reflexivity.
Qed.

Lemma no_space_app (a b : string) :
  JS.forallb (fun c => negb (JS.is_space c)) (a ++ b)
  = JS.forallb (fun c => negb (JS.is_space c)) a
    && JS.forallb (fun c => negb (JS.is_space c)) b.
Proof.
  induction a as [|c a IH]; cbn; [reflexivity|]. now rewrite IH, andb_assoc.
Qed.

Lemma no_space_in (p : ascii -> bool) (s : string) :
  (forall c, p c = true -> JS.is_space c = false) ->
  JS.forallb p s = true -> JS.forallb (fun c => negb (JS.is_space c)) s = true.
Proof.
  intros Hp. induction s as [|c s IH]; cbn; [reflexivity|].
  intros H. apply andb_prop in H as [Hc Hs]. now rewrite (Hp c Hc), IH.
Qed.

Lemma identifier_has_no_space (id : string) :
  is_identifier id = true -> JS.forallb (fun c => negb (JS.is_space c)) id = true.
Proof.
  destruct id as [|ch run]; [discriminate|]. cbn. intros H.
  apply andb_prop in H as [Hch Hrun].
  rewrite (no_space_in _ run identifier_char_is_no_space Hrun), andb_true_r.
  apply negb_true_iff, identifier_char_is_no_space.
  unfold is_identifier_char. now rewrite Hch.
Qed.

Lemma render_has_no_space (e : expr) :
  well_formed e = true -> JS.forallb (fun c => negb (JS.is_space c)) (render e) = true.
Proof.
  induction e as [v|c|f arg IH|e IH|o l IHl r IHr]; cbn [well_formed render]; intros Hwf.
  - destruct (literal_cases v Hwf) as (ch & run & -> & Hch & Hrun & _).
    apply (no_space_in is_number_char); [exact number_char_not_space|].
    cbn. now rewrite Hch, Hrun.
  - apply andb_prop in Hwf as [Hwf _]. apply andb_prop in Hwf as [Hid _].
    now apply identifier_has_no_space.
  - apply andb_prop in Hwf as [Hf Hwf].
    rewrite !no_space_app, (IH Hwf).
    now rewrite (identifier_has_no_space f (function_name_is_identifier f Hf)).
  - rewrite !no_space_app, (IH Hwf). reflexivity.
  - apply andb_prop in Hwf as [Hl Hr].
    rewrite !no_space_app, (IHl Hl), (IHr Hr). now destruct o.
Qed.

Lemma filter_no_space (s : string) :
  JS.forallb (fun c => negb (JS.is_space c)) s = true ->
  JS.filter (fun c => negb (JS.is_space c)) s = s.
Proof.
  induction s as [|c s IH]; cbn; [reflexivity|].
  intros H. apply andb_prop in H as [Hc Hs]. now rewrite Hc, IH.
Qed.

Lemma append_empty_string (s : string) : (s ++ "")%string = s.
Proof. induction s as [|c s IH]; cbn; [reflexivity|now rewrite IH]. Qed.

Lemma tokenize_render (e : expr) :
  well_formed e = true -> tokenize (render e) = Ok (infix e).
Proof.
  intros Hwf. unfold tokenize.
  rewrite (filter_no_space _ (render_has_no_space e Hwf)).
  rewrite <- (append_empty_string (render e)).
  now rewrite (tokenize_loop_render e "" [] Hwf eq_refl).
Qed.

(** The three stages on the text of an expression. *)
Lemma pipeline_render (e : expr) :
  well_formed e = true -> fits 1 e = true ->
  tokenize (render e) = Ok (infix e)
  /\ toRPN (infix e) = Ok (postfix e)
  /\ evaluateRPN (postfix e) = value_of e.
Proof.
  intros Hwf Hfits. split; [exact (tokenize_render e Hwf)|]. split.
  - destruct (shunt_all_expression e 1 [] [] [] Hfits eq_refl) as (os & out & _ & Hout & E).
    unfold toRPN. rewrite app_nil_r in E. rewrite E. cbn [shunt_all].
    rewrite app_nil_r, drain_pending. now rewrite Hout.
  - unfold evaluateRPN. rewrite eval_tokens_postfix. now destruct (value_of e).
Qed.

(** X10.  [Parser.evaluate] computes the value of the expression it is given:
    for every well formed expression tree (literals of digits and at most
    one dot, constants of [CONSTANTS], functions of [FUNCTIONS]) written
    with parentheses wherever precedence and associativity ask for them,
    evaluating its text gives its value, or fails as its value fails. *)
Theorem evaluate_expression (e : expr) :
  well_formed e = true -> fits 1 e = true ->
  Parser.evaluate (render e) = value_of e.
Proof.
  intros Hwf Hfits. unfold Parser.evaluate.
  destruct (pipeline_render e Hwf Hfits) as (Ht & Hr & He).
  rewrite Ht. cbn [bind]. rewrite Hr. cbn [bind]. exact He.
Qed.

(** X11.  A text of white space only, the empty text among them, has no
    tokens, and [Parser.evaluate] throws "Invalid expression" on it. *)
Theorem evaluate_blank (expr : string) :
  JS.forallb JS.is_space expr = true ->
  tokenize expr = Ok [] /\ Parser.evaluate expr = Throw "Invalid expression".
Proof.
  intros H. unfold Parser.evaluate, tokenize. now rewrite (filter_spaces expr H).
Qed.

(** A turn on a lexeme throws nothing but failures of the kinds the
    evaluator has. *)
Lemma eval_token_lexeme_throw (t : Token) (stack : list JS.value) (m : string) :
  is_lexeme t = true -> eval_token t stack = Throw m ->
  exists k, Spec.kind m = Some k /\ k <> LexError.
Proof.
  intros Hlex H.
  destruct (eval_token_throw t stack m H)
    as [[Ht [[-> _]|(b & a & rest & _ & _ & _ & Hop)]]
       |[Ht [[-> _]|(a & rest & _ & _ & Hfn)]]].
  - now exists EvalError.
  - destruct (apply_op_throw _ _ _ _ Hop) as [(_ & _ & ->)|(_ & H1 & H2 & H3 & H4 & H5)].
    + now exists DivisionByZero.
    + unfold is_lexeme in Hlex. rewrite Ht in Hlex. cbn in Hlex.
      repeat (apply orb_prop in Hlex as [Hlex|Hlex];
              [apply String.eqb_eq in Hlex; contradiction|]).
      discriminate.
  - now exists EvalError.
  - destruct (apply_fn_throw _ _ _ Hfn)
      as [(_ & _ & ->)|[(_ & _ & ->)|[(_ & _ & ->)|(_ & Hnot)]]];
      try (now exists DomainError).
    unfold is_lexeme in Hlex. rewrite Ht in Hlex. exfalso. apply Hnot.
    unfold JS.has in Hlex. apply List.existsb_exists in Hlex as (x & Hin & Hx).
    apply String.eqb_eq in Hx. now subst x.
Qed.

(** What [Parser.evaluate] throws is what [tokenize] throws, or a failure of
    one of the later stages. *)
Lemma evaluate_throw_stage (expr m : string) :
  Parser.evaluate expr = Throw m ->
  tokenize expr = Throw m \/ exists k, Spec.kind m = Some k /\ k <> LexError.
Proof.
  intros H. apply evaluate_throw in H.
  destruct H as [H|[(tokens & _ & H)|(tokens & rpn & Htok & Hrpn & H)]].
  - now left.
  - right. pose proof (toRPN_spec tokens) as Hspec. rewrite H in Hspec.
    destruct Hspec as [-> _]. now exists SyntaxError.
  - right. apply evaluateRPN_throw in H
      as [(pre & t & post & stack & -> & _ & H)|(stack & _ & _ & ->)];
      [|now exists EvalError].
    apply (eval_token_lexeme_throw t stack m); [|exact H].
    unfold tokenize in Htok.
    destruct (tokenize_loop_ok _ _ _ _ (le_n _) Htok) as (new & E & _ & Hall).
    cbn [app] in E. subst new.
    rewrite Forall_forall in Hall. apply Hall.
    pose proof (toRPN_permutation _ _ Hrpn) as Hperm.
    assert (Hin : In t (without_parens tokens)).
    { apply (Permutation_in _ Hperm), in_app_iff. right. now left. }
    unfold without_parens in Hin. now apply List.filter_In in Hin.
Qed.

(** X12.  Whatever [Parser.evaluate] throws is a failure of one of the five
    kinds (lexical, mismatched parentheses, invalid expression, division by
    zero, domain): on the tokens of a text the evaluator never reaches
    "Unknown operator" or "Unknown function". *)
Theorem evaluate_failure_kinds (expr m : string) :
  Parser.evaluate expr = Throw m -> exists k, Spec.kind m = Some k.
Proof.
  intros H. apply evaluate_throw_stage in H as [H|(k & H & _)].
  - exists LexError. now apply tokenize_throws_lexical in H.
  - now exists k.
Qed.

End Whole.

Section WholeExamples.

Import Parser Spec Expr.

Local Open Scope list_scope.

Lemma evaluate_expression_witness :
  render (Bin Sub (Bin Mul (Lit "2") (Group (Bin Add (Lit "3") (Lit "4"))))
                  (Bin Pow (Lit "2") (Bin Pow (Lit "3") (Lit "2"))))
  = "2*(3+4)-2^3^2"
  /\ Parser.evaluate (host := Engine.host) "2*(3+4)-2^3^2" = Ok (JS.VNum (-498)).
Proof.
  split; [reflexivity|].
  apply (evaluate_expression (host := Engine.host)
           (Bin Sub (Bin Mul (Lit "2") (Group (Bin Add (Lit "3") (Lit "4"))))
                    (Bin Pow (Lit "2") (Bin Pow (Lit "3") (Lit "2")))));
    reflexivity.
Defined.

Lemma evaluate_blank_witness :
  JS.forallb JS.is_space "  " = true
  /\ Parser.evaluate (host := Engine.host) "  " = Throw "Invalid expression".
Proof.
  split; [reflexivity|].
  apply (evaluate_blank (host := Engine.host) "  "). reflexivity.
Defined.

Lemma evaluate_failure_kinds_witness :
  Parser.evaluate (host := Engine.host) "2*(3+4" = Throw "Mismatched parentheses"
  /\ exists k, Spec.kind "Mismatched parentheses" = Some k.
Proof.
  split; [reflexivity|].
  apply (evaluate_failure_kinds (host := Engine.host) "2*(3+4"). reflexivity.
Defined.

End WholeExamples.

(** ** format *)

Section Format.

Import Calculator Text.

Local Open Scope string_scope.

Lemma forallb_app (p : ascii -> bool) (a b : string) :
  JS.forallb p (a ++ b) = JS.forallb p a && JS.forallb p b.
Proof.
  induction a as [|c a IH]; cbn; [reflexivity|]. now rewrite IH, andb_assoc.
Qed.

Lemma forallb_weaken (p q : ascii -> bool) (s : string) :
  (forall c, p c = true -> q c = true) ->
  JS.forallb p s = true -> JS.forallb q s = true.
Proof.
  intros Hpq. induction s as [|c s IH]; cbn; [reflexivity|].
  intros H. apply andb_prop in H as [Hc Hs]. now rewrite (Hpq c Hc), IH.
Qed.

Lemma forallb_substring (p : ascii -> bool) (s : string) :
  forall n m, JS.forallb p s = true -> JS.forallb p (substring n m s) = true.
Proof.
  induction s as [|c s IH]; intros n m H.
  - now destruct n, m.
  - cbn in H. apply andb_prop in H as [Hc Hs].
    destruct n as [|n]; [destruct m as [|m]|]; cbn; [reflexivity| |now apply IH].
    now rewrite Hc, IH.
Qed.

Lemma forallb_repeat_char (p : ascii -> bool) (c : ascii) (n : nat) :
  p c = true -> JS.forallb p (JS.repeat_char c n) = true.
Proof. intros Hc. induction n as [|n IH]; cbn; [reflexivity|]. now rewrite Hc, IH. Qed.

(** The decimal digits of a number are digits. *)
Lemma decimal_digits (n : Z) : JS.forallb JS.is_digit (JS.decimal n) = true.
Proof.
  unfold JS.decimal. generalize (N.to_uint (Z.to_N n)). intros d.
  assert (H : JS.forallb JS.is_digit (NilEmpty.string_of_uint d) = true)
    by (induction d; cbn; auto).
  now destruct d.
Qed.

(** The characters [toPrecision] writes: digits, a dot, the sign [-], the
    exponent mark [e] and its sign, and the letters of [NaN] and
    [Infinity]. *)
Lemma toPrecision_characters (p : ascii -> bool) (x : float) (precision : Z) :
  (forall c, JS.is_digit c = true -> p c = true) ->
  (forall c, JS.is_letter c = true -> p c = true) ->
  p "."%char = true -> p "-"%char = true -> p "+"%char = true ->
  JS.forallb p (JS.toPrecision x precision) = true.
Proof.
  intros Hdigit Hletter Hdot Hminus Hplus.
  assert (Hdec : forall n, JS.forallb p (JS.decimal n) = true)
    by (intros n; apply (forallb_weaken JS.is_digit); [exact Hdigit|apply decimal_digits]).
  assert (Hsub : forall n i j, JS.forallb p (substring i j (JS.decimal n)) = true)
    by (intros; apply forallb_substring, Hdec).
  assert (Hzero : forall n, JS.forallb p (JS.repeat_char "0" n) = true)
    by (intros; apply forallb_repeat_char, Hdigit; reflexivity).
  assert (He : p "e"%char = true) by (apply Hletter; reflexivity).
  assert (H0 : p "0"%char = true) by (apply Hdigit; reflexivity).
  unfold JS.toPrecision.
  destruct (Prim2SF x) as [s|s| |s m e].
  - destruct (_ =? _)%Z; cbn; rewrite H0; [reflexivity|]. now rewrite Hdot, Hzero.
  - destruct s; cbn; rewrite ?Hminus, ?Hletter; reflexivity.
  - cbn. rewrite !Hletter; reflexivity.
  - repeat match goal with
           | |- context [let (_, _) := ?q in _] => destruct q
           | |- context [if ?b then _ else _] => destruct b
           end;
      rewrite ?forallb_app; cbn [JS.forallb];
      rewrite ?forallb_app, ?Hdec, ?Hsub, ?Hzero, ?He, ?H0, ?Hdot, ?Hminus, ?Hplus;
      reflexivity.
Qed.

Lemma dots_app (a b : string) : dots (a ++ b) = dots a + dots b.
Proof.
  unfold dots. induction a as [|c a IH]; [reflexivity|].
  change (String c a ++ b) with (String c (a ++ b)). cbn [JS.count]. rewrite IH. lia.
Qed.

Lemma dots_digits (s : string) : JS.forallb JS.is_digit s = true -> dots s = 0.
Proof.
  unfold dots. induction s as [|c s IH]; cbn [JS.count JS.forallb]; [reflexivity|].
  intros H. apply andb_prop in H as [Hc Hs]. rewrite (IH Hs).
  destruct (Ascii.eqb_spec "." c) as [<-|_]; [discriminate|reflexivity].
Qed.

(** [toPrecision] writes at most one dot. *)
Lemma toPrecision_dots (x : float) (precision : Z) :
  dots (JS.toPrecision x precision) <= 1.
Proof.
  assert (Hdec : forall n, dots (JS.decimal n) = 0)
    by (intros; apply dots_digits, decimal_digits).
  assert (Hsub : forall n i j, dots (substring i j (JS.decimal n)) = 0)
    by (intros; apply dots_digits, forallb_substring, decimal_digits).
  assert (Hzero : forall n, dots (JS.repeat_char "0" n) = 0)
    by (intros; apply dots_digits, forallb_repeat_char; reflexivity).
  unfold JS.toPrecision.
  destruct (Prim2SF x) as [s|s| |s m e].
  - destruct (_ =? _)%Z; [cbn; lia|].
    change (dots ("0." ++ JS.repeat_char "0" (Z.to_nat (precision - 1))) <= 1).
    rewrite dots_app, Hzero. cbn. lia.
  - destruct s; cbn; lia.
  - cbn. lia.
  - repeat match goal with
           | |- context [let (_, _) := ?q in _] => destruct q
           | |- context [if ?b then _ else _] => destruct b
           end;
      rewrite ?dots_app, ?Hdec, ?Hsub, ?Hzero; cbn; lia.
Qed.

(** Both replacements keep a prefix of the text. *)
Lemma replace_fraction_zeros_prefix (s : string) :
  forall frac behind, exists rest, s = replace_fraction_zeros frac behind s ++ rest.
Proof.
  induction s as [|ch s IH]; intros frac behind; cbn [replace_fraction_zeros].
  - now exists "".
  - destruct (_ || _); [now eexists|].
    destruct (IH (Ascii.eqb ch "." || JS.is_digit ch && frac) (JS.between 49 57 ch && frac))
      as [rest E].
    exists rest. cbn. now rewrite <- E.
Qed.

Lemma replace_trailing_zeros_prefix (s : string) :
  exists rest, s = replace_trailing_zeros s ++ rest.
Proof.
  induction s as [|ch s [rest E]]; cbn [replace_trailing_zeros].
  - now exists "".
  - destruct (_ || _); [now eexists|]. exists rest. cbn. now rewrite <- E.
Qed.

Lemma format_prefix (n : float) :
  exists rest, JS.toPrecision (JS.parseFloat_String n) 12 = format n ++ rest.
Proof.
  unfold format.
  destruct (replace_fraction_zeros_prefix (JS.toPrecision (JS.parseFloat_String n) 12)
              false false) as [r1 E1].
  destruct (replace_trailing_zeros_prefix
              (replace_fraction_zeros false false
                 (JS.toPrecision (JS.parseFloat_String n) 12))) as [r2 E2].
  exists (r2 ++ r1). rewrite <- string_app_assoc, <- E2. exact E1.
Qed.

Lemma format_characters (p : ascii -> bool) (n : float) :
  (forall c, JS.is_digit c = true -> p c = true) ->
  (forall c, JS.is_letter c = true -> p c = true) ->
  p "."%char = true -> p "-"%char = true -> p "+"%char = true ->
  JS.forallb p (format n) = true.
Proof.
  intros Hdigit Hletter Hdot Hminus Hplus.
  pose proof (toPrecision_characters p (JS.parseFloat_String n) 12
                Hdigit Hletter Hdot Hminus Hplus) as H.
  destruct (format_prefix n) as [rest E]. rewrite E, forallb_app in H.
  now apply andb_prop in H.
Qed.

(** Where the first replacement finds nothing behind it to remove, what it
    keeps of a text without a dot is all zeros only if the text is. *)
Lemma replace_fraction_zeros_all_zeros (s : string) :
  forall frac, dots s = 0 ->
    JS.forallb (Ascii.eqb "0") (replace_fraction_zeros frac false s) = true ->
    JS.forallb (Ascii.eqb "0") s = true.
Proof.
  unfold dots.
  induction s as [|ch s IH]; intros frac Hdots; cbn [replace_fraction_zeros]; [auto|].
  cbn in Hdots. destruct (Ascii.eqb_spec "." ch) as [<-|Hch]; [discriminate|].
  assert (E : Ascii.eqb ch "." = false) by (apply Ascii.eqb_neq; congruence).
  rewrite E. cbn [andb orb JS.forallb].
  intros H. apply andb_prop in H as [H0 Hs]. rewrite H0. cbn.
  apply Ascii.eqb_eq in H0. subst ch. cbn in Hs. now apply (IH _ Hdots Hs).
Qed.

(** After the first replacement a text with at most one dot does not end
    with a dot and zeros. *)
Lemma replace_fraction_zeros_end (s : string) :
  forall frac behind, dots s <= 1 ->
    ends_with_dot_zeros (replace_fraction_zeros frac behind s) = false.
Proof.
  induction s as [|ch s IH]; intros frac behind Hdots; cbn [replace_fraction_zeros];
    [reflexivity|].
  destruct (_ || _) eqn:Hcut; [reflexivity|].
  cbn [ends_with_dot_zeros]. apply orb_false_elim in Hcut as [Hcut _].
  assert (Hs : dots s <= 1) by (unfold dots in *; cbn in Hdots; lia).
  rewrite (IH _ _ Hs), orb_false_r.
  destruct (Ascii.eqb_spec ch ".") as [->|_]; [|reflexivity].
  cbn [andb] in *.
  change (replace_fraction_zeros _ _ s) with (replace_fraction_zeros true false s).
  assert (Hnone : dots s = 0) by (unfold dots in *; cbn in Hdots; lia).
  unfold zeros in *.
  destruct (JS.forallb (Ascii.eqb "0") (replace_fraction_zeros true false s)) eqn:Hz;
    [|apply andb_false_r].
  apply (replace_fraction_zeros_all_zeros s true Hnone) in Hz.
  rewrite Hz, andb_true_r in Hcut. apply negb_false_iff in Hcut.
  destruct s; [reflexivity|discriminate].
Qed.

Lemma replace_trailing_zeros_empty (s : string) :
  replace_trailing_zeros s = "" ->
  s = "" \/ zeros s = true \/ ends_with_dot_zeros s = true.
Proof.
  destruct s as [|ch s]; [auto|]. cbn [replace_trailing_zeros ends_with_dot_zeros].
  destruct (Ascii.eqb ch "." && zeros s); [cbn; auto|].
  destruct (zeros (String ch s)); [auto|discriminate].
Qed.

Lemma zeros_cons (s : string) :
  s = "" \/ zeros s = true -> zeros (String "0" s) = true.
Proof.
  unfold zeros. intros [->|H]; [reflexivity|]. cbn.
  now apply andb_prop in H as [_ ->].
Qed.

(** The second replacement leaves no zero at the end of a text that does
    not end with a dot and zeros. *)
Lemma replace_trailing_zeros_end (s : string) :
  ends_with_dot_zeros s = false -> ends_with "0" (replace_trailing_zeros s) = false.
Proof.
  induction s as [|ch s IH]; [reflexivity|]. cbn [ends_with_dot_zeros replace_trailing_zeros].
  intros H. apply orb_false_elim in H as [Hhere Hs]. rewrite Hhere. cbn [orb].
  destruct (zeros (String ch s)) eqn:Hz; [reflexivity|].
  cbn [ends_with]. specialize (IH Hs).
  destruct (replace_trailing_zeros s) eqn:Er; [|exact IH].
  destruct (Ascii.eqb_spec ch "0") as [->|_]; [|reflexivity].
  apply replace_trailing_zeros_empty in Er as [E|[E|E]].
  - now rewrite zeros_cons in Hz by auto.
  - now rewrite zeros_cons in Hz by auto.
  - congruence.
Qed.

(** X13.  What [format] returns is the beginning of what [toPrecision(12)]
    writes, and it never ends with the digit 0: the second replacement
    also removes the zeros that end an integer or an exponent. *)
Theorem format_never_ends_with_zero (n : float) :
  prefix (format n) (JS.toPrecision (JS.parseFloat_String n) 12) = true
  /\ ends_with "0" (format n) = false.
Proof.
  split.
  - destruct (format_prefix n) as [rest E]. rewrite E. clear E.
    induction (format n) as [|c s IH]; cbn; [now destruct rest|].
    destruct (ascii_dec c c); [exact IH|congruence].
  - apply replace_trailing_zeros_end, replace_fraction_zeros_end, toPrecision_dots.
Qed.

End Format.

(** ** calculator.ts *)

Section Buffer.

Import Parser Spec Text Session.

Context `{host : JS.Host}.

Local Open Scope string_scope.

Lemma digit_is_allowed (c : ascii) :
  JS.is_digit c = true -> Calculator.is_allowed_char c = true.
Proof. intros H. unfold Calculator.is_allowed_char. now rewrite H. Qed.

Lemma letter_is_allowed (c : ascii) :
  JS.is_letter c = true -> Calculator.is_allowed_char c = true.
Proof. intros H. unfold Calculator.is_allowed_char. now rewrite H, orb_true_r. Qed.

Lemma format_allowed (n : float) :
  JS.forallb Calculator.is_allowed_char (Calculator.format n) = true.
Proof.
  apply format_characters;
    [exact digit_is_allowed|exact letter_is_allowed|reflexivity..].
Qed.

Lemma forallb_slice (p : ascii -> bool) (s : string) :
  JS.forallb p s = true -> JS.forallb p (JS.slice_0_minus1 s) = true.
Proof.
  induction s as [|c s IH]; [auto|]. cbn [JS.forallb]. intros H.
  apply andb_prop in H as [Hc Hs]. destruct s as [|c' s]; [reflexivity|].
  change (JS.forallb p (String c (JS.slice_0_minus1 (String c' s))) = true).
  cbn [JS.forallb]. now rewrite Hc, (IH Hs).
Qed.

Lemma forallb_filter (p q : ascii -> bool) (s : string) :
  JS.forallb p s = true -> JS.forallb p (JS.filter q s) = true.
Proof.
  induction s as [|c s IH]; cbn [JS.forallb JS.filter]; [auto|]. intros H.
  apply andb_prop in H as [Hc Hs]. destruct (q c); [cbn [JS.forallb]; rewrite Hc|]; auto.
Qed.

Lemma forallb_or_default (p : ascii -> bool) (s : string) :
  p "0"%char = true -> JS.forallb p s = true -> JS.forallb p (JS.or_default s "0") = true.
Proof. intros H0 H. destruct s; [cbn; now rewrite H0|exact H]. Qed.

(** An allowed character that starts neither a number, a name nor a
    parenthesis is an operator. *)
Lemma allowed_char_cases (ch : ascii) :
  Calculator.is_allowed_char ch = true ->
  is_number_char ch = false -> JS.is_letter ch = false -> is_paren_char ch = false ->
  is_operator_char ch = true.
Proof.
  unfold Calculator.is_allowed_char, is_number_char.
  intros H Hn Hl Hp. apply orb_false_elim in Hn as [Hd Hdot].
  now rewrite Hd, Hl, Hp, Hdot, !orb_false_r in H.
Qed.

(** On allowed characters the loop never throws "Invalid character". *)
Lemma tokenize_loop_allowed (n : nat) :
  forall (cleaned : string) (tokens : list Token) (m : string),
    String.length cleaned <= n ->
    JS.forallb Calculator.is_allowed_char cleaned = true ->
    tokenize_loop cleaned tokens = Throw m ->
    prefix "Invalid character: " m = false.
Proof.
  induction n as [|n IH]; intros cleaned tokens m Hlen Hall.
  - destruct cleaned; [discriminate|simpl in Hlen; lia].
  - destruct cleaned as [|ch rest]; [discriminate|]. simpl in Hlen.
    cbn [JS.forallb] in Hall. apply andb_prop in Hall as [Hch Hrest].
    destruct (is_number_char ch) eqn:Hn.
    + rewrite (tokenize_loop_number ch rest tokens Hn).
      pose proof (span_length is_number_char rest) as Hr.
      pose proof (span_spec is_number_char rest) as Hspan.
      destruct (JS.span is_number_char rest) as [run r]. simpl in Hr.
      destruct Hspan as (-> & _ & _). rewrite forallb_app in Hrest.
      apply andb_prop in Hrest as [_ Hrest].
      unfold number_token. destruct (_ <? _)%nat.
      * now intros [= <-].
      * apply IH; [lia|exact Hrest].
    + destruct (JS.is_letter ch) eqn:Hl.
      * rewrite (tokenize_loop_identifier ch rest tokens Hn Hl).
        pose proof (span_length is_identifier_char rest) as Hr.
        pose proof (span_spec is_identifier_char rest) as Hspan.
        destruct (JS.span is_identifier_char rest) as [run r]. simpl in Hr.
        destruct Hspan as (-> & _ & _). rewrite forallb_app in Hrest.
        apply andb_prop in Hrest as [_ Hrest].
        unfold identifier_token.
        destruct (JS.has FUNCTIONS _); [apply IH; [lia|exact Hrest]|].
        destruct (JS.in_ _ CONSTANTS); [apply IH; [lia|exact Hrest]|].
        now intros [= <-].
      * cbn [tokenize_loop]. rewrite Hn, Hl.
        destruct (is_paren_char ch) eqn:Hp; [apply IH; [lia|exact Hrest]|].
        rewrite (allowed_char_cases ch Hch Hn Hl Hp). apply IH; [lia|exact Hrest].
Qed.

Lemma evaluate_allowed (expr m : string) :
  JS.forallb Calculator.is_allowed_char expr = true ->
  Parser.evaluate expr = Throw m ->
  prefix "Invalid character: " m = false.
Proof.
  intros Hall H. apply evaluate_throw_stage in H as [H|(k & H & Hk)].
  - unfold tokenize in H.
    apply (tokenize_loop_allowed _ _ _ _ (le_n _)) in H; [exact H|].
    now apply forallb_filter.
  - unfold kind in H. destruct (prefix "Invalid character: " m); [|reflexivity].
    rewrite orb_true_r in H. congruence.
Qed.

Lemma prefix_app (a s : string) :
  prefix a s = true -> exists rest, s = a ++ rest.
Proof.
  revert s. induction a as [|c a IH]; intros s; [now exists s|].
  destruct s as [|c' s]; [discriminate|]. cbn [prefix].
  destruct (ascii_dec c c') as [<-|]; [|discriminate].
  intros H. destruct (IH s H) as [rest ->]. now exists rest.
Qed.

Lemma allowed_is_no_report (s : string) :
  JS.forallb Calculator.is_allowed_char s = true ->
  prefix "Error: Invalid character: " s = false.
Proof.
  intros Hall. destruct (prefix _ s) eqn:E; [|reflexivity].
  apply prefix_app in E as [rest ->]. rewrite forallb_app in Hall.
  apply andb_prop in Hall as [Hall _]. discriminate.
Qed.

Lemma shown_onChange (s : string) (c : Calculator.state) :
  prefix "Error: Invalid character: " s = false ->
  never_reported_invalid_character c ->
  never_reported_invalid_character (Calculator.onChange s c).
Proof.
  unfold never_reported_invalid_character, Calculator.onChange. cbn [Calculator.shown].
  intros Hs Hc. apply Forall_app. split; [exact Hc|]. now constructor.
Qed.

(** Every method keeps the buffer within the allowed characters, and shows
    no report of an invalid character. *)
Lemma step_allowed (a : action) (c : Calculator.state) :
  JS.forallb Calculator.is_allowed_char (Calculator.input c) = true
  /\ never_reported_invalid_character c ->
  JS.forallb Calculator.is_allowed_char (Calculator.input (step a c)) = true
  /\ never_reported_invalid_character (step a c).
Proof.
  intros [Hin Hshown]. destruct a as [v| | |]; cbn [step].
  - unfold Calculator.append.
    destruct (JS.forallb Calculator.is_allowed_char v) eqn:Hv; cbn [negb]; [|auto].
    assert (H : JS.forallb Calculator.is_allowed_char (Calculator.input c ++ v) = true)
      by now rewrite forallb_app, Hin, Hv.
    split; [exact H|]. apply shown_onChange.
    + apply allowed_is_no_report, forallb_or_default; [reflexivity|exact H].
    + exact Hshown.
  - unfold Calculator.backspace.
    assert (H : JS.forallb Calculator.is_allowed_char
                  (JS.slice_0_minus1 (Calculator.input c)) = true)
      by now apply forallb_slice.
    split; [exact H|]. apply shown_onChange.
    + apply allowed_is_no_report, forallb_or_default; [reflexivity|exact H].
    + exact Hshown.
  - split; [reflexivity|]. now apply shown_onChange.
  - unfold Calculator.evaluate.
    destruct (Parser.evaluate (JS.or_default (Calculator.input c) "0")) as [v|m] eqn:E.
    + assert (H : JS.forallb Calculator.is_allowed_char
                    (if JS.Number_isFinite v then Calculator.format (JS.ToNumber v)
                     else "Error") = true)
        by (destruct (JS.Number_isFinite v); [apply format_allowed|reflexivity]).
      split; [exact H|]. apply shown_onChange; [|exact Hshown].
      now apply allowed_is_no_report.
    + split; [exact Hin|]. apply shown_onChange; [|exact Hshown].
      apply evaluate_allowed in E; [|apply forallb_or_default; [reflexivity|exact Hin]].
      cbn. exact E.
Qed.

(** X14.  Whatever is done with a calculator, in whatever order, its buffer
    holds nothing but the characters [append] lets in: what [evaluate]
    writes back into it, a formatted number or "Error", is made of them
    too.  So the tokenizer's "Invalid character" is never reported on the
    display. *)
Theorem session_keeps_allowed_characters (actions : list action) :
  JS.forallb Calculator.is_allowed_char (Calculator.input (run actions new)) = true
  /\ never_reported_invalid_character (run actions new).
Proof.
  assert (H : JS.forallb Calculator.is_allowed_char (Calculator.input new) = true
              /\ never_reported_invalid_character new) by (split; [reflexivity|constructor]).
  revert H. generalize new. induction actions as [|a actions IH]; intros c H; [exact H|].
  cbn [run]. apply IH, step_allowed, H.
Qed.

Lemma display_onChange (s : string) (c : Calculator.state) :
  display (Calculator.onChange s c) = Some s.
Proof.
  unfold display, Calculator.onChange. cbn [Calculator.shown].
  rewrite List.map_app. cbn [List.map]. apply List.last_last.
Qed.




(** Taking the last character away, under a text that goes on. *)
Lemma slice_app (s : string) (c : ascii) (v : string) :
  JS.slice_0_minus1 (s ++ String c v) = s ++ JS.slice_0_minus1 (String c v).
Proof.
  induction s as [|d s IH]; [reflexivity|].
  change (String d s ++ String c v) with (String d (s ++ String c v)).
  change (JS.slice_0_minus1 (String d (s ++ String c v)))
    with (match s ++ String c v with
          | "" => ""
          | _ => String d (JS.slice_0_minus1 (s ++ String c v))
          end).
  rewrite IH. now destruct s.
Qed.

Lemma slice_length (c : ascii) (v : string) :
  String.length (JS.slice_0_minus1 (String c v)) = String.length v.
Proof.
  revert c. induction v as [|d v IH]; intros c; [reflexivity|].
  change (JS.slice_0_minus1 (String c (String d v)))
    with (String c (JS.slice_0_minus1 (String d v))).
  cbn [String.length]. now rewrite IH.
Qed.

Lemma backspaces_input (n : nat) :
  forall (v s : string) (c : Calculator.state),
    String.length v = n -> Calculator.input c = s ++ v ->
    Calculator.input (run (List.repeat Backspace n) c) = s.
Proof.
  induction n as [|n IH]; intros v s c Hlen Hin.
  - destruct v; [|discriminate]. now rewrite append_empty in Hin.
  - destruct v as [|ch v]; [discriminate|]. injection Hlen as Hlen.
    cbn [List.repeat run step].
    apply (IH (JS.slice_0_minus1 (String ch v))).
    + now rewrite slice_length.
    + unfold Calculator.backspace. cbn [Calculator.input Calculator.onChange Calculator.set_input].
      now rewrite Hin, slice_app.
Qed.

Lemma backspaces_display (n : nat) :
  forall c : Calculator.state,
    display c = Some (JS.or_default (Calculator.input c) "0") ->
    display (run (List.repeat Backspace n) c)
    = Some (JS.or_default (Calculator.input (run (List.repeat Backspace n) c)) "0").
Proof.
  induction n as [|n IH]; intros c H; [exact H|].
  cbn [List.repeat run step]. apply IH. apply display_onChange.
Qed.

(** X16.  Backspaces undo an [append]: after a text that [append] accepts
    and as many [backspace] as it has characters, the buffer is what it
    was, and the display holds it, or "0" if it is empty. *)
Theorem backspaces_undo_append (v : string) (c : Calculator.state) :
  JS.forallb Calculator.is_allowed_char v = true ->
  let c' := run (Append v :: List.repeat Backspace (String.length v)) c in
  Calculator.input c' = Calculator.input c
  /\ display c' = Some (JS.or_default (Calculator.input c) "0").
Proof.
  intros Hv. cbv zeta. cbn [run step].
  assert (Hin : Calculator.input (run (List.repeat Backspace (String.length v))
                                    (Calculator.append v c)) = Calculator.input c).
  { apply (backspaces_input _ v); [reflexivity|].
    unfold Calculator.append. now rewrite Hv. }
  split; [exact Hin|].
  rewrite backspaces_display; [now rewrite Hin|].
  unfold Calculator.append. rewrite Hv. apply display_onChange.
Qed.

(** X17.  A result that is not a finite number puts the word "Error" into
    the buffer, where it stays as if it had been typed: evaluating again
    reads it as a name and reports "Unknown identifier: Error". *)
Theorem evaluate_keeps_error_word (c : Calculator.state) (v : JS.value) :
  Parser.evaluate (JS.or_default (Calculator.input c) "0") = Ok v ->
  JS.Number_isFinite v = false ->
  Calculator.evaluate c
  = {| Calculator.input := "Error"; Calculator.shown := (Calculator.shown c ++ ["Error"])%list |}
  /\ Calculator.evaluate (Calculator.evaluate c)
     = {| Calculator.input := "Error";
          Calculator.shown := (Calculator.shown c
                               ++ ["Error"; "Error: Unknown identifier: Error"])%list |}.
Proof.
  intros He Hv.
  assert (E : Calculator.evaluate c
              = {| Calculator.input := "Error";
                   Calculator.shown := (Calculator.shown c ++ ["Error"])%list |})
    by (unfold Calculator.evaluate; now rewrite He, Hv).
  split; [exact E|]. rewrite E.
  assert (Hagain : Parser.evaluate "Error" = Throw "Unknown identifier: Error")
    by reflexivity.
  unfold Calculator.evaluate. cbn [Calculator.input JS.or_default]. rewrite Hagain.
  unfold Calculator.onChange. cbn [Calculator.input Calculator.shown].
  now rewrite <- app_assoc.
Qed.

End Buffer.

Section BufferExamples.

Import Parser Spec Text Session.

Local Open Scope string_scope.

Lemma backspaces_undo_append_witness :
  JS.forallb Calculator.is_allowed_char "sin(" = true
  /\ run (host := Engine.host) [Append "sin("; Backspace; Backspace; Backspace; Backspace]
       {| Calculator.input := "2*"; Calculator.shown := ["2"; "2*"] |}
     = {| Calculator.input := "2*";
          Calculator.shown := ["2"; "2*"; "2*sin("; "2*sin"; "2*si"; "2*s"; "2*"] |}
  /\ Calculator.input
       (run (host := Engine.host) [Append "sin("; Backspace; Backspace; Backspace; Backspace]
          {| Calculator.input := "2*"; Calculator.shown := ["2"; "2*"] |}) = "2*".
Proof.
  split; [reflexivity|]. split; [reflexivity|].
  apply (backspaces_undo_append (host := Engine.host) "sin("
           {| Calculator.input := "2*"; Calculator.shown := ["2"; "2*"] |}).
  reflexivity.
Defined.

Lemma evaluate_keeps_error_word_witness :
  Parser.evaluate (host := Engine.host) "10^999" = Ok (JS.VNum infinity)
  /\ JS.Number_isFinite (JS.VNum infinity) = false
  /\ Calculator.evaluate (host := Engine.host)
       {| Calculator.input := "10^999"; Calculator.shown := ["10^999"] |}
     = {| Calculator.input := "Error"; Calculator.shown := ["10^999"; "Error"] |}.
Proof.
  assert (He : Parser.evaluate (host := Engine.host) "10^999" = Ok (JS.VNum infinity))
    by (vm_compute; reflexivity).
  split; [exact He|]. split; [reflexivity|].
  apply (evaluate_keeps_error_word (host := Engine.host)
           {| Calculator.input := "10^999"; Calculator.shown := ["10^999"] |}
           (JS.VNum infinity)); [exact He|reflexivity].
Defined.

End BufferExamples.

(** ** Entering an expression *)

Section Entry.

Import Parser Spec Expr Text Session.

Context `{host : JS.Host}.

Local Open Scope string_scope.

Lemma number_char_is_allowed (c : ascii) :
  is_number_char c = true -> Calculator.is_allowed_char c = true.
Proof.
  unfold is_number_char, Calculator.is_allowed_char. intros H.
  apply orb_prop in H as [-> | ->]; [reflexivity|now rewrite !orb_true_r].
Qed.

Lemma identifier_char_is_allowed (c : ascii) :
  is_identifier_char c = true -> Calculator.is_allowed_char c = true.
Proof.
  unfold is_identifier_char. intros H.
  apply orb_prop in H as [H|H]; [now apply letter_is_allowed|now apply digit_is_allowed].
Qed.

Lemma identifier_is_allowed (id : string) :
  is_identifier id = true -> JS.forallb Calculator.is_allowed_char id = true.
Proof.
  destruct id as [|ch run]; [discriminate|]. cbn [is_identifier JS.forallb]. intros H.
  apply andb_prop in H as [Hch Hrun].
  rewrite (letter_is_allowed ch Hch).
  exact (forallb_weaken _ _ run identifier_char_is_allowed Hrun).
Qed.

(** The text of a well formed expression is made of allowed characters, and
    is not empty. *)
Lemma render_allowed (e : expr) :
  well_formed e = true -> JS.forallb Calculator.is_allowed_char (render e) = true.
Proof.
  induction e as [v|c|f arg IH|e IH|o l IHl r IHr]; cbn [well_formed render]; intros Hwf.
  - unfold is_literal in Hwf. apply andb_prop in Hwf as [Hwf _].
    apply andb_prop in Hwf as [_ Hall].
    exact (forallb_weaken _ _ v number_char_is_allowed Hall).
  - apply andb_prop in Hwf as [Hwf _]. apply andb_prop in Hwf as [Hid _].
    now apply identifier_is_allowed.
  - apply andb_prop in Hwf as [Hf Hwf].
    rewrite !forallb_app, (IH Hwf).
    now rewrite (identifier_is_allowed f (function_name_is_identifier f Hf)).
  - now rewrite !forallb_app, (IH Hwf).
  - apply andb_prop in Hwf as [Hl Hr].
    rewrite !forallb_app, (IHl Hl), (IHr Hr). now destruct o.
Qed.

Lemma app_not_empty (a b : string) : JS.is_empty a = false -> JS.is_empty (a ++ b) = false.
Proof. now destruct a. Qed.

Lemma render_not_empty (e : expr) :
  well_formed e = true -> JS.is_empty (render e) = false.
Proof.
  induction e as [v|c|f arg IH|e IH|o l IHl r IHr]; cbn [well_formed render]; intros Hwf.
  - unfold is_literal in Hwf. apply andb_prop in Hwf as [Hwf _].
    apply andb_prop in Hwf as [Hne _]. now apply negb_true_iff in Hne.
  - apply andb_prop in Hwf as [Hwf _]. apply andb_prop in Hwf as [Hid _].
    now destruct c.
  - apply andb_prop in Hwf as [Hf _]. apply app_not_empty.
    apply function_name_is_identifier in Hf. now destruct f.
  - reflexivity.
  - apply andb_prop in Hwf as [Hl _]. now apply app_not_empty, IHl.
Qed.

(** X18.  Entering an expression and evaluating it.  After [clear], an
    [append] of the text of a well formed expression tree, with parentheses
    wherever precedence and associativity ask for them, is accepted, and
    [evaluate] then shows the value of the expression as [format] writes it
    and makes it the buffer, or shows and keeps the word "Error" when the
    value is not a finite number, or shows "Error: " and the message of
    the failure and keeps the text. *)
Theorem calculator_evaluates_expression (e : expr) (c : Calculator.state) :
  well_formed e = true -> fits 1 e = true ->
  Calculator.evaluate (Calculator.append (render e) (Calculator.clear c))
  = match value_of e with
    | Ok v =>
        let out := if JS.Number_isFinite v then Calculator.format (JS.ToNumber v)
                   else "Error" in
        {| Calculator.input := out;
           Calculator.shown := (Calculator.shown c ++ ["0"; render e; out])%list |}
    | Throw m =>
        {| Calculator.input := render e;
           Calculator.shown := (Calculator.shown c ++ ["0"; render e; ("Error: " ++ m)%string])%list |}
    end.
Proof.
  intros Hwf Hfits.
  assert (Hdefault : JS.or_default (render e) "0" = render e)
    by (pose proof (render_not_empty e Hwf); now destruct (render e)).
  assert (Happend : Calculator.append (render e) (Calculator.clear c)
                    = {| Calculator.input := render e;
                         Calculator.shown := (Calculator.shown c ++ ["0"; render e])%list |}).
  { unfold Calculator.append. rewrite (render_allowed e Hwf).
    unfold Calculator.clear, Calculator.onChange, Calculator.set_input.
    cbn [negb Calculator.input Calculator.shown append]. rewrite Hdefault.
    now rewrite <- app_assoc. }
  assert (Hvalue : Parser.evaluate (render e) = value_of e).
  { destruct (pipeline_render e Hwf Hfits) as (Ht & Hr & He).
    unfold Parser.evaluate. rewrite Ht. cbn [bind]. rewrite Hr. cbn [bind]. exact He. }
  rewrite Happend. unfold Calculator.evaluate. cbn [Calculator.input].
  rewrite Hdefault, Hvalue.
  unfold Calculator.onChange, Calculator.set_input.
  destruct (value_of e) as [v|m]; cbn [Calculator.input Calculator.shown];
    now rewrite <- app_assoc.
Qed.

End Entry.

Section EntryExamples.

Import Parser Spec Expr Text Session.

Local Open Scope string_scope.

Lemma calculator_evaluates_expression_witness :
  well_formed (Bin Div (Group (Bin Add (Lit "1") (Lit "2"))) (Lit "8")) = true
  /\ fits 1 (Bin Div (Group (Bin Add (Lit "1") (Lit "2"))) (Lit "8")) = true
  /\ Calculator.evaluate (host := Engine.host)
       (Calculator.append "(1+2)/8" (Calculator.clear Session.new))
     = {| Calculator.input := "0.375"; Calculator.shown := ["0"; "(1+2)/8"; "0.375"] |}.
Proof.
  split; [reflexivity|]. split; [reflexivity|].
  apply (calculator_evaluates_expression (host := Engine.host)
           (Bin Div (Group (Bin Add (Lit "1") (Lit "2"))) (Lit "8")) Session.new);
    reflexivity.
Defined.

End EntryExamples.

(** ** main.ts *)

Section Keys.

Import Parser Spec Text Session Main.

Context `{host : JS.Host}.

Local Open Scope string_scope.

(** A key of the expression is one allowed character, and none of the keys
    that have a meaning of their own. *)
Lemma expression_key_cases (key : string) :
  is_expression_key key = true ->
  exists ch, key = String ch "" /\ Calculator.is_allowed_char ch = true.
Proof.
  destruct key as [|ch [|]]; try discriminate. cbn [is_expression_key].
  intros H. exists ch. split; [reflexivity|].
  unfold Calculator.is_allowed_char.
  destruct (JS.is_digit ch); [reflexivity|].
  destruct (JS.is_letter ch); [reflexivity|]. exact H.
Qed.

Lemma keydown_expression_key (key : string) (calc : Calculator.state) :
  is_expression_key key = true ->
  keydown key calc
  = {| Calculator.input := Calculator.input calc ++ key;
       Calculator.shown := (Calculator.shown calc ++ [(Calculator.input calc ++ key)%string])%list |}.
Proof.
  intros Hkey. destruct (expression_key_cases key Hkey) as (ch & -> & Hch).
  unfold keydown. rewrite Hkey.
  assert (E : forall name, (1 <? String.length name)%nat = true ->
                           String.eqb (String ch "") name = false).
  { intros [|c [|c' name]] H; try discriminate. cbn. apply andb_false_r. }
  rewrite !E by reflexivity.
  unfold Calculator.append. cbn [JS.forallb]. rewrite Hch. cbn [andb negb].
  unfold Calculator.onChange, Calculator.set_input. cbn [Calculator.input Calculator.shown].
  now destruct (Calculator.input calc).
Qed.

Lemma concat_cons (key : string) (keys : list string) :
  String.concat "" (key :: keys) = key ++ String.concat "" keys.
Proof. destruct keys; cbn; [now rewrite append_empty|reflexivity]. Qed.

(** X19.  Typing on the keyboard.  Keys that are digits, operators,
    parentheses or the dot go into the buffer one after the other, none is
    rejected, and after each the display holds the buffer. *)
Theorem keydowns_type (keys : list string) (calc : Calculator.state) :
  Forall (fun key => is_expression_key key = true) keys ->
  Calculator.input (keydowns keys calc) = Calculator.input calc ++ String.concat "" keys
  /\ List.length (Calculator.shown (keydowns keys calc))
     = List.length (Calculator.shown calc) + List.length keys
  /\ (keys <> [] -> display (keydowns keys calc) = Some (Calculator.input (keydowns keys calc))).
Proof.
  intros Hkeys. revert calc.
  induction Hkeys as [|key keys Hkey _ IH]; intros calc.
  - cbn. rewrite append_empty. repeat split; [lia|congruence].
  - cbn [keydowns]. rewrite (keydown_expression_key key calc Hkey).
    destruct (IH {| Calculator.input := Calculator.input calc ++ key;
                    Calculator.shown :=
                      (Calculator.shown calc ++ [(Calculator.input calc ++ key)%string])%list |})
      as (Hin & Hlen & Hshow).
    cbn [Calculator.input Calculator.shown] in Hin, Hlen.
    split; [rewrite Hin, concat_cons; apply string_app_assoc|].
    split; [rewrite Hlen, List.length_app; cbn; lia|]. intros _.
    destruct keys as [|key' keys]; [|apply Hshow; discriminate].
    cbn [keydowns]. unfold display. cbn [Calculator.shown Calculator.input].
    rewrite List.map_app. cbn [List.map]. apply List.last_last.
Qed.

Lemma lowercase_word_is_allowed (val : string) :
  is_lowercase_word val = true -> JS.forallb Calculator.is_allowed_char val = true.
Proof.
  unfold is_lowercase_word. intros H. apply andb_prop in H as [_ H].
  apply (forallb_weaken (JS.between 97 122)); [|exact H].
  intros c Hc. apply letter_is_allowed. unfold JS.is_letter. now rewrite Hc.
Qed.

(** X20.  A button whose [data-val] is a word of small letters and that has
    no [data-fn] enters the word and an open parenthesis, whatever the word
    is: the name of a function, and the name of a constant as well.  The
    text is never rejected. *)
Theorem click_word_button (fn : option string) (val : string) (calc : Calculator.state) :
  truthy fn = false -> is_lowercase_word val = true ->
  click (Some {| data_fn := fn; data_val := Some val |}) calc
  = {| Calculator.input := Calculator.input calc ++ val ++ "(";
       Calculator.shown :=
         (Calculator.shown calc ++ [(Calculator.input calc ++ val ++ "(")%string])%list |}.
Proof.
  intros Hfn Hval. unfold click. cbn [data_fn data_val]. rewrite Hfn.
  assert (Htruthy : truthy (Some val) = true).
  { unfold is_lowercase_word in Hval. apply andb_prop in Hval as [H _]. exact H. }
  rewrite Htruthy, Hval. unfold Calculator.append.
  rewrite forallb_app, (lowercase_word_is_allowed val Hval). cbn [JS.forallb andb negb].
  unfold Calculator.onChange, Calculator.set_input. cbn [Calculator.input Calculator.shown].
  assert (Hne : JS.or_default (Calculator.input calc ++ val ++ "(") "0"
                = Calculator.input calc ++ val ++ "(").
  { destruct (Calculator.input calc); [|reflexivity]. now destruct val. }
  now rewrite Hne.
Qed.

End Keys.

Section KeysExamples.

Import Parser Spec Text Session Main.

Local Open Scope string_scope.

Lemma keydowns_type_witness :
  Forall (fun key => is_expression_key key = true) ["("; "1"; "+"; "2"; ")"; "/"; "8"]
  /\ keydowns (host := Engine.host) ["("; "1"; "+"; "2"; ")"; "/"; "8"; "Enter"] start
     = {| Calculator.input := "0.375";
          Calculator.shown :=
            ["0"; "("; "(1"; "(1+"; "(1+2"; "(1+2)"; "(1+2)/"; "(1+2)/8"; "0.375"] |}
  /\ Calculator.input (keydowns (host := Engine.host) ["("; "1"; "+"; "2"; ")"; "/"; "8"] start)
     = "(1+2)/8".
Proof.
  assert (H : Forall (fun key => is_expression_key key = true)
                ["("; "1"; "+"; "2"; ")"; "/"; "8"])
    by (repeat constructor).
  split; [exact H|]. split; [reflexivity|].
  exact (proj1 (keydowns_type (host := Engine.host) _ start H)).
Defined.

Lemma click_word_button_witness :
  truthy None = false
  /\ is_lowercase_word "pi" = true
  /\ click (host := Engine.host) (Some {| data_fn := None; data_val := Some "pi" |}) start
     = {| Calculator.input := "pi("; Calculator.shown := ["0"; "pi("] |}.
Proof.
  split; [reflexivity|]. split; [reflexivity|].
  apply (click_word_button (host := Engine.host) None "pi" start); reflexivity.
Defined.

End KeysExamples.
